(** * hr-mvp: the employee roster and its queries

    A shallow embedding of [hr_mvp/roster.py] (the record model and the
    roster collection) and of the month formatter of [hr_mvp/cli.py],
    followed by the properties the specification states about them.

    Conventions of the embedding:
    - a Python [str] is the list of its Unicode code points;
    - a Python [int] is a [Z];
    - a [datetime.date] is its proleptic Gregorian ordinal
      ([date.toordinal()]), which is how CPython orders and shifts dates;
    - a finite Python [float] is the rational number it denotes;
    - a call that may raise returns a [result];
    - a [dict] is the list of its items in insertion order. *)

From Stdlib Require Import ZArith NArith QArith Qround Qabs.
From Stdlib Require Import List Bool Lia Lqa String Ascii DecimalString.
From Stdlib Require Import Sorted Permutation.
Import ListNotations.

Local Open Scope Z_scope.

(* ================================================================= *)
(** * Python strings *)

Definition str := list N.

(** String literals are written as UTF-8 byte strings and decoded here to
    code points.  [need] counts the continuation bytes still expected. *)
Fixpoint utf8_decode_from (s : string) (need : nat) (acc : N) : str :=
  match s with
  | EmptyString => []
  | String c t =>
      let b := N_of_ascii c in
      match need with
      | O =>
          if (b <? 128)%N then b :: utf8_decode_from t 0 0
          else if (b <? 224)%N then utf8_decode_from t 1 (b - 192)
          else if (b <? 240)%N then utf8_decode_from t 2 (b - 224)
          else utf8_decode_from t 3 (b - 240)
      | S O => (acc * 64 + (b - 128))%N :: utf8_decode_from t 0 0
      | S n => utf8_decode_from t n (acc * 64 + (b - 128))%N
      end
  end.

Definition u8 (s : string) : str := utf8_decode_from s 0 0.

(** The literals of the source. *)
Definition lit_employed : str := Eval cbv in u8 "재직".
Definition lit_unspecified : str := Eval cbv in u8 "(미지정)".
Definition lit_year : str := Eval cbv in u8 "년".
Definition lit_months : str := Eval cbv in u8 "개월".
Definition lit_zero_months : str := Eval cbv in u8 "0개월".
Definition lit_approx : str := Eval cbv in u8 "(약 ".
Definition lit_months_close : str := Eval cbv in u8 "개월)".
Definition lit_dash : str := Eval cbv in u8 "-".
Definition lit_space : str := Eval cbv in u8 " ".

(** [a == b] on strings. *)
Fixpoint str_eqb (a b : str) : bool :=
  match a, b with
  | [], [] => true
  | x :: a', y :: b' => (x =? y)%N && str_eqb a' b'
  | _, _ => false
  end.

(** [a < b] on strings: lexicographic on code points. *)
Fixpoint str_ltb (a b : str) : bool :=
  match a, b with
  | _, [] => false
  | [], _ :: _ => true
  | x :: a', y :: b' => (x <? y)%N || ((x =? y)%N && str_ltb a' b')
  end.

Fixpoint startswith (prefix s : str) : bool :=
  match prefix, s with
  | [], _ => true
  | _ :: _, [] => false
  | x :: p', y :: s' => (x =? y)%N && startswith p' s'
  end.

(** [sub in s]. *)
Fixpoint contains (sub s : str) : bool :=
  startswith sub s ||
  match s with
  | [] => false
  | _ :: t => contains sub t
  end.

(** [str.isspace] on one code point: the characters [str.strip()] removes. *)
Definition py_isspace (c : N) : bool :=
  (((9 <=? c) && (c <=? 13)) || ((28 <=? c) && (c <=? 32))
   || (c =? 133) || (c =? 160) || (c =? 5760)
   || ((8192 <=? c) && (c <=? 8202))
   || (c =? 8232) || (c =? 8233) || (c =? 8239) || (c =? 8287)
   || (c =? 12288))%N.

Fixpoint lstrip (s : str) : str :=
  match s with
  | [] => []
  | c :: t => if py_isspace c then lstrip t else s
  end.

Definition rstrip (s : str) : str := rev (lstrip (rev s)).

Definition strip (s : str) : str := rstrip (lstrip s).

(** [sep.join(parts)]. *)
Fixpoint join (sep : str) (parts : list str) : str :=
  match parts with
  | [] => []
  | [p] => p
  | p :: rest => p ++ sep ++ join sep rest
  end.

(** [a or b] on strings: the empty string is falsy. *)
Definition str_or (a b : str) : str :=
  match a with
  | [] => b
  | _ :: _ => a
  end.

Fixpoint str_of_string (s : string) : str :=
  match s with
  | EmptyString => []
  | String c t => N_of_ascii c :: str_of_string t
  end.

(** [str(n)] and [f"{n}"] for an [int]: decimal digits, a leading minus
    sign for a negative number. *)
Definition str_of_Z (n : Z) : str :=
  str_of_string (NilZero.string_of_int (Z.to_int n)).

(** Truthiness of an [int]. *)
Definition int_truthy (n : Z) : bool := negb (n =? 0).

(* ================================================================= *)
(** * Exceptions *)

Inductive exn : Set :=
| OverflowError
| ZeroDivisionError.

Inductive result (A : Type) : Type :=
| Ok (a : A)
| Raise (e : exn).

Arguments Ok {A} a.
Arguments Raise {A} e.

Definition bind {A B : Type} (m : result A) (k : A -> result B) : result B :=
  match m with
  | Ok a => k a
  | Raise e => Raise e
  end.

Notation "x <- m ;; k" := (bind m (fun x => k))
  (at level 61, m at next level, right associativity).

(* ================================================================= *)
(** * Dates *)

Definition date := Z.

Definition _MAXORDINAL : Z := 3652059.

Definition date_max : date := _MAXORDINAL.


(** [timedelta(days=n)]: the number of days it holds. *)
Definition timedelta_of_days (n : Z) : result Z :=
  if (-999999999 <=? n) && (n <=? 999999999) then Ok n
  else Raise OverflowError.

(** [d + delta]. *)
Definition date_add (d : date) (delta_days : Z) : result date :=
  let o := d + delta_days in
  if (0 <? o) && (o <=? _MAXORDINAL) then Ok o else Raise OverflowError.

(** [(a - b).days]. *)
Definition date_sub_days (a b : date) : Z := a - b.

(** [date(y, m, d).toordinal()], for writing dates down. *)
Definition is_leap (y : Z) : bool :=
  (y mod 4 =? 0) && (negb (y mod 100 =? 0) || (y mod 400 =? 0)).

Definition days_before_year (y : Z) : Z :=
  let p := y - 1 in p * 365 + p / 4 - p / 100 + p / 400.

Definition days_in_month (y m : Z) : Z :=
  if m =? 2 then (if is_leap y then 29 else 28)
  else if (m =? 4) || (m =? 6) || (m =? 9) || (m =? 11) then 30
  else 31.

Definition days_before_month (y m : Z) : Z :=
  fold_left (fun acc k => acc + days_in_month y (Z.of_nat k))
            (seq 1 (Z.to_nat (m - 1))) 0.

Definition ymd (y m d : Z) : date :=
  days_before_year y + days_before_month y m + d.

(* ================================================================= *)
(** * Floats *)

(** [round(x)] for a float: the nearest integer, ties to the even one. *)
Definition py_round (x : Q) : Z :=
  let f := Qfloor x in
  match Qcompare (x - inject_Z f) (1 # 2) with
  | Lt => f
  | Gt => f + 1
  | Eq => if Z.even f then f else f + 1
  end.

Definition Qpow2 (e : Z) : Q :=
  if 0 <=? e then inject_Z (2 ^ e) else 1 # Z.to_pos (2 ^ (- e)).

(** The binary64 value nearest to [q] (ties to even), [None] when it
    lies beyond the largest finite float. *)
Definition binary64_of_Q (q : Q) : option Q :=
  if Qnum q =? 0 then Some 0%Q
  else
    let a := Qabs q in
    let k := Z.log2 (Qnum a) - Z.log2 (Zpos (Qden a)) in
    let e := if Qle_bool (Qpow2 k) a then k else k - 1 in
    let sh := Z.max (e - 52) (-1074) in
    let m := py_round (a / Qpow2 sh) in
    let r := Qred (inject_Z m * Qpow2 sh) in
    if Qle_bool (Qpow2 1024) r then None
    else Some (if Qnum q <? 0 then Qopp r else r).

(** [a / b] on two [int]s: true division, correctly rounded. *)
Definition int_truediv (a b : Z) : result Q :=
  if b =? 0 then Raise ZeroDivisionError
  else
    match binary64_of_Q (Qred (inject_Z a / inject_Z b)) with
    | Some x => Ok x
    | None => Raise OverflowError
    end.

(** [f"{x:.1f}"]: one decimal, correctly rounded. *)
Definition format_1f (x : Q) : str :=
  let t := Z.abs (py_round (x * 10)) in
  (if Qnum x <? 0 then u8 "-" else []) ++
  str_of_Z (t / 10) ++ u8 "." ++ str_of_Z (t mod 10).

(* ================================================================= *)
(** * Sorting and dictionaries *)

(** [sorted(l, key=key)] and [l.sort(key=key)]: a stable sort that
    compares keys with [<] alone.  The element in front is put before the
    first sorted element whose key is not smaller than its own. *)
Fixpoint sort_insert {A K : Type} (ltb : K -> K -> bool) (key : A -> K)
         (x : A) (l : list A) : list A :=
  match l with
  | [] => [x]
  | y :: t =>
      if ltb (key y) (key x) then y :: sort_insert ltb key x t
      else x :: y :: t
  end.

Fixpoint sorted {A K : Type} (ltb : K -> K -> bool) (key : A -> K)
         (l : list A) : list A :=
  match l with
  | [] => []
  | x :: t => sort_insert ltb key x (sorted ltb key t)
  end.

Definition dict (V : Type) : Type := list (str * V).

(** [d.get(k, default)]. *)
Fixpoint dict_get {V : Type} (d : dict V) (k : str) (default : V) : V :=
  match d with
  | [] => default
  | (k', v) :: t => if str_eqb k' k then v else dict_get t k default
  end.

(** [d[k] = v]: a present key keeps its place, a new key goes last. *)
Fixpoint dict_set {V : Type} (d : dict V) (k : str) (v : V) : dict V :=
  match d with
  | [] => [(k, v)]
  | (k', v') :: t =>
      if str_eqb k' k then (k', v) :: t else (k', v') :: dict_set t k v
  end.

(** [dict(items)]. *)
Definition dict_of_items {V : Type} (items : list (str * V)) : dict V :=
  fold_left (fun d kv => dict_set d (fst kv) (snd kv)) items [].

Definition sum_Z (l : list Z) : Z := fold_left Z.add l 0.

(* ================================================================= *)
(** * The month formatters *)

(** [roster._format_months]. *)
Definition _format_months (months : option Z) : str :=
  match months with
  | None => lit_dash
  | Some months =>
      let years := months / 12 in
      let remaining_months := months mod 12 in
      if int_truthy years && int_truthy remaining_months then
        str_of_Z years ++ lit_year ++ lit_space
                 ++ str_of_Z remaining_months ++ lit_months
      else if int_truthy years then str_of_Z years ++ lit_year
      else str_of_Z remaining_months ++ lit_months
  end.

(** [cli._describe_months]. *)
Definition _describe_months (months : option Q) : str :=
  match months with
  | None => lit_dash
  | Some months =>
      let rounded := py_round months in
      let years := rounded / 12 in
      let remaining_months := rounded mod 12 in
      let parts : list str := [] in
      let parts :=
        if int_truthy years then parts ++ [str_of_Z years ++ lit_year]
        else parts in
      let parts :=
        if int_truthy remaining_months
        then parts ++ [str_of_Z remaining_months ++ lit_months]
        else parts in
      let parts :=
        match parts with
        | [] => parts ++ [lit_zero_months]
        | _ :: _ => parts
        end in
      let parts :=
        if negb (Qeq_bool (inject_Z rounded) months)
        then parts ++ [lit_approx ++ format_1f months ++ lit_months_close]
        else parts in
      join lit_space parts
  end.

(* ================================================================= *)
(** * EmployeeRecord *)

Record EmployeeRecord : Type := {
  employee_id : str;
  payroll_id : str;
  name : str;
  gender : str;
  birthdate : option date;
  age_group : str;
  team : str;
  part : str;
  title : str;
  start_date : option date;
  probation_end : option date;
  resignation_date : option date;
  tenure_text : str;
  prior_experience_text : str;
  total_experience_text : str;
  contract_type : str;
  phone : str;
  email : str;
  work_location : str;
  job_type : str;
  employment_status : str;
  employment_status_detail : str;
  prior_experience_months : option Z;
  current_experience_months : option Z;
  total_experience_months : option Z
}.

Definition is_active (self : EmployeeRecord) : bool :=
  match resignation_date self with
  | Some _ => false
  | None => contains lit_employed (employment_status self)
  end.

Definition tenure_months (self : EmployeeRecord) : option Z :=
  current_experience_months self.

Definition tenure_display (self : EmployeeRecord) : str :=
  match tenure_months self with
  | Some m => _format_months (Some m)
  | None => str_or (tenure_text self) lit_dash
  end.

Definition total_experience_display (self : EmployeeRecord) : str :=
  match total_experience_months self with
  | Some m => _format_months (Some m)
  | None => str_or (total_experience_text self) lit_dash
  end.

(** [reference_date or date.today()]: a date is always truthy. *)
Definition or_today (today : date) (reference_date : option date) : date :=
  match reference_date with
  | Some d => d
  | None => today
  end.

Definition probation_days_remaining (today : date) (self : EmployeeRecord)
           (reference_date : option date) : option Z :=
  match probation_end self with
  | None => None
  | Some pe => Some (date_sub_days pe (or_today today reference_date))
  end.

(** The sort key of [upcoming_probation_end]:
    [emp.probation_end or date.max]. *)
Definition probation_key (emp : EmployeeRecord) : date :=
  match probation_end emp with
  | Some d => d
  | None => date_max
  end.

(** The grouping keys of the two summaries. *)
Definition team_key (employee : EmployeeRecord) : str :=
  str_or (team employee) lit_unspecified.

Definition status_key (employee : EmployeeRecord) : str :=
  str_or (employment_status employee) lit_unspecified.

(* ================================================================= *)
(** * EmployeeRoster *)

Record EmployeeRoster : Type := { _employees : list EmployeeRecord }.

Definition len (self : EmployeeRoster) : Z :=
  Z.of_nat (List.length (_employees self)).

Definition active (self : EmployeeRoster) : list EmployeeRecord :=
  filter is_active (_employees self).

(** The counting loop the two summaries share:
    [counts[key] = counts.get(key, 0) + 1] for each employee in turn. *)
Definition tally_step (key : EmployeeRecord -> str) (counts : dict Z)
           (employee : EmployeeRecord) : dict Z :=
  dict_set counts (key employee) (dict_get counts (key employee) 0 + 1).

Definition tally (key : EmployeeRecord -> str)
           (employees : list EmployeeRecord) : dict Z :=
  fold_left (tally_step key) employees [].

Definition summary_by_team (self : EmployeeRoster) : dict Z :=
  dict_of_items (sorted str_ltb fst (tally team_key (active self))).

Definition summary_by_status (self : EmployeeRoster) : dict Z :=
  dict_of_items (sorted str_ltb fst (tally status_key (_employees self))).

(** The list comprehension of [average_tenure_months]. *)
Definition tenures_of (population : list EmployeeRecord) : list Z :=
  flat_map (fun emp => match tenure_months emp with
                       | Some m => [m]
                       | None => []
                       end) population.

Definition average_tenure_months (self : EmployeeRoster)
           (active_only : bool) : result (option Q) :=
  let population := if active_only then active self else _employees self in
  let tenures := tenures_of population in
  match tenures with
  | [] => Ok None
  | _ :: _ =>
      x <- int_truediv (sum_Z tenures) (Z.of_nat (List.length tenures)) ;;
      Ok (Some x)
  end.

(** The loop of [upcoming_probation_end] before the sort. *)
Definition probation_window (reference_date window_end : date)
           (employees : list EmployeeRecord) : list EmployeeRecord :=
  fold_left
    (fun results employee =>
       match probation_end employee with
       | None => results
       | Some pe =>
           if (reference_date <=? pe) && (pe <=? window_end)
           then results ++ [employee]
           else results
       end)
    employees [].

Definition upcoming_probation_end (today : date) (self : EmployeeRoster)
           (within_days : Z) (reference_date : option date)
  : result (list EmployeeRecord) :=
  let reference_date := or_today today reference_date in
  delta <- timedelta_of_days within_days ;;
  window_end <- date_add reference_date delta ;;
  let results := probation_window reference_date window_end (active self) in
  Ok (sorted Z.ltb probation_key results).

(** The methods that call [str.lower], a table of the interpreter that is
    no part of the repository. *)
Section Lower.

Variable lower : str -> str.

Definition matches (self : EmployeeRecord) (keyword : str) : bool :=
  let keyword_lower := lower keyword in
  contains keyword_lower (lower (name self))
  || contains keyword_lower (lower (team self))
  || contains keyword_lower (lower (part self))
  || contains keyword_lower (lower (title self)).

Definition search (self : EmployeeRoster) (keyword : str)
  : list EmployeeRecord :=
  let keyword := strip keyword in
  match keyword with
  | [] => []
  | _ :: _ => filter (fun employee => matches employee keyword)
                     (_employees self)
  end.

End Lower.

(** [str.lower] on strings of ASCII and Hangul characters. *)
Definition lower_ascii (s : str) : str :=
  map (fun c => if ((65 <=? c) && (c <=? 90))%N then (c + 32)%N else c) s.

(** The summary line of the CLI: the average tenure of the active staff,
    described in words. *)
Definition describe_average_tenure (self : EmployeeRoster) : result str :=
  avg_tenure <- average_tenure_months self true ;;
  Ok (_describe_months avg_tenure).

(** The month rule as the specification words it: a component shows
    when it is positive, "0개월" when neither does, and the one-decimal
    approximation follows when the value is no integer. *)
Definition is_integer (x : Q) : bool := Qeq_bool (inject_Z (Qfloor x)) x.

Definition approx_part (x : Q) : list str :=
  if is_integer x then []
  else [lit_approx ++ format_1f x ++ lit_months_close].

Definition months_shown (years remaining_months : Z) (approx : list str)
  : str :=
  let shown :=
    (if 0 <? years then [str_of_Z years ++ lit_year] else [])
    ++ (if 0 <? remaining_months
        then [str_of_Z remaining_months ++ lit_months] else []) in
  let shown :=
    match shown with
    | [] => [lit_zero_months]
    | _ :: _ => shown
    end in
  join lit_space (shown ++ approx).

(** Whole years are the floor of months/12, remaining months the floor of
    months mod 12. *)
Definition spec_months_display (months : Q) : str :=
  let years := Qfloor (months / 12) in
  let remaining_months := Qfloor (months - 12 * inject_Z years) in
  months_shown years remaining_months (approx_part months).

(** The test of the loop of [upcoming_probation_end]. *)
Definition in_window (reference_date window_end : date)
           (employee : EmployeeRecord) : bool :=
  match probation_end employee with
  | None => false
  | Some pe => (reference_date <=? pe) && (pe <=? window_end)
  end.

Definition has_probation_end (d : date) (employee : EmployeeRecord) : bool :=
  match probation_end employee with
  | None => false
  | Some pe => pe =? d
  end.

(** [a] ends probation no later than [b]; both dates are present. *)
Definition probation_le (a b : EmployeeRecord) : Prop :=
  match probation_end a, probation_end b with
  | Some x, Some y => x <= y
  | _, _ => False
  end.

(** Order notions for a sort that compares keys with [ltb]. *)
Definition key_le {A K : Type} (ltb : K -> K -> bool) (key : A -> K)
           (a b : A) : Prop :=
  ltb (key b) (key a) = false.

Definition same_key {A K : Type} (ltb : K -> K -> bool) (key : A -> K)
           (k : K) (a : A) : bool :=
  negb (ltb (key a) k) && negb (ltb k (key a)).

Definition keys {V : Type} (d : dict V) : list str := map fst d.
Definition values {V : Type} (d : dict V) : list V := map snd d.

(** How many of [employees] fall under the grouping key [k]. *)
Definition count_key (key : EmployeeRecord -> str) (k : str)
           (employees : list EmployeeRecord) : Z :=
  Z.of_nat (List.length (filter (fun e => str_eqb (key e) k) employees)).

(** A record with the fields the queries read; the others are blank. *)
Definition employee (nm tm ttl status : str)
           (probation resignation : option date) (months : option Z)
  : EmployeeRecord :=
  {| employee_id := []; payroll_id := []; name := nm; gender := [];
     birthdate := None; age_group := []; team := tm; part := [];
     title := ttl; start_date := None; probation_end := probation;
     resignation_date := resignation; tenure_text := [];
     prior_experience_text := []; total_experience_text := [];
     contract_type := []; phone := []; email := []; work_location := [];
     job_type := []; employment_status := status;
     employment_status_detail := []; prior_experience_months := None;
     current_experience_months := months;
     total_experience_months := None |}.

(** A small roster: A and B of team GURM, C an executive, D resigned. *)
Definition emp_A : EmployeeRecord :=
  employee (u8 "A") (u8 "GURM") [] (u8 "재직")
           (Some (ymd 2016 9 1)) None (Some 11).
Definition emp_B : EmployeeRecord :=
  employee (u8 "B") (u8 "GURM") [] (u8 "재직") None None (Some 12).
Definition emp_C : EmployeeRecord :=
  employee (u8 "C") (u8 "임원") [] (u8 "재직") None None None.
Definition emp_D : EmployeeRecord :=
  employee (u8 "D") [] [] (u8 "퇴직")
           (Some (ymd 2016 9 1)) (Some (ymd 2016 8 15)) (Some 5).
Definition emp_E : EmployeeRecord :=
  employee (u8 "E") (u8 "GURM") [] (u8 "재직")
           (Some (ymd 2016 9 1)) None None.
Definition emp_F : EmployeeRecord :=
  employee (u8 "F") [] [] (u8 "재직") (Some (ymd 2016 8 10)) None None.

Definition roster_example : EmployeeRoster :=
  {| _employees := [emp_A; emp_B; emp_C; emp_D] |}.

Definition roster_ties : EmployeeRoster :=
  {| _employees := [emp_A; emp_D; emp_E; emp_B; emp_F] |}.

(* ================================================================= *)
(** * Loading records from rows *)

Inductive load_exn : Type :=
| KeyError (key : str)
| ValueError (text : str).

Inductive loaded (A : Type) : Type :=
| Loaded (a : A)
| LoadError (e : load_exn).

Arguments Loaded {A} a.
Arguments LoadError {A} e.

Definition load_bind {A B : Type} (m : loaded A) (k : A -> loaded B)
  : loaded B :=
  match m with
  | Loaded a => k a
  | LoadError e => LoadError e
  end.

Notation "x <~ m ;; k" := (load_bind m (fun x => k))
  (at level 61, m at next level, right associativity).

(** A present key of [d], or nothing. *)
Fixpoint dict_lookup {V : Type} (d : dict V) (k : str) : option V :=
  match d with
  | [] => None
  | (k', v) :: t => if str_eqb k' k then Some v else dict_lookup t k
  end.

(** [row[key]]: a missing key raises [KeyError]. *)
Definition row_get (row : dict str) (key : str) : loaded str :=
  match dict_lookup row key with
  | Some v => Loaded v
  | None => LoadError (KeyError key)
  end.

(** A row written down as pairs of column name and cell. *)
Definition example_row (cells : list (string * string)) : dict str :=
  map (fun kv => (u8 (fst kv), u8 (snd kv))) cells.




(** The two conversions of the interpreter that the parsers call:
    [datetime.strptime(value, "%Y-%m-%d").date()] and [int(value)], with
    [None] for the [ValueError] either raises on text it does not accept. *)
Section Parsers.

Variable strptime_ymd : str -> option date.
Variable int_of_str : str -> option Z.

Definition _parse_date (value : str) : loaded (option date) :=
  let value := strip value in
  match value with
  | [] => Loaded None
  | _ :: _ =>
      match strptime_ymd value with
      | Some d => Loaded (Some d)
      | None => LoadError (ValueError value)
      end
  end.

Definition _parse_int (value : str) : loaded (option Z) :=
  let value := strip value in
  match value with
  | [] => Loaded None
  | _ :: _ =>
      match int_of_str value with
      | Some n => Loaded (Some n)
      | None => LoadError (ValueError value)
      end
  end.

(** [row[key].strip()]. *)
Definition row_text (row : dict str) (key : str) : loaded str :=
  v <~ row_get row key ;; Loaded (strip v).

(** [_parse_date(row[key])] and [_parse_int(row[key])]. *)
Definition row_date (row : dict str) (key : str) : loaded (option date) :=
  v <~ row_get row key ;; _parse_date v.

Definition row_int (row : dict str) (key : str) : loaded (option Z) :=
  v <~ row_get row key ;; _parse_int v.

(** [EmployeeRecord.from_row]: the arguments are evaluated in the order
    they are written, so the first cell that fails decides the error. *)
Definition from_row (row : dict str) : loaded EmployeeRecord :=
  v_employee_id <~ row_text row (u8 "employee_id") ;;
  v_payroll_id <~ row_text row (u8 "payroll_id") ;;
  v_name <~ row_text row (u8 "name") ;;
  v_gender <~ row_text row (u8 "gender") ;;
  v_birthdate <~ row_date row (u8 "birthdate") ;;
  v_age_group <~ row_text row (u8 "age_group") ;;
  v_team <~ row_text row (u8 "team") ;;
  v_part <~ row_text row (u8 "part") ;;
  v_title <~ row_text row (u8 "title") ;;
  v_start_date <~ row_date row (u8 "start_date") ;;
  v_probation_end <~ row_date row (u8 "probation_end") ;;
  v_resignation_date <~ row_date row (u8 "resignation_date") ;;
  v_tenure_text <~ row_text row (u8 "tenure_text") ;;
  v_prior_experience_text <~ row_text row (u8 "prior_experience_text") ;;
  v_total_experience_text <~ row_text row (u8 "total_experience_text") ;;
  v_contract_type <~ row_text row (u8 "contract_type") ;;
  v_phone <~ row_text row (u8 "phone") ;;
  v_email <~ row_text row (u8 "email") ;;
  v_work_location <~ row_text row (u8 "work_location") ;;
  v_job_type <~ row_text row (u8 "job_type") ;;
  v_employment_status <~ row_text row (u8 "employment_status") ;;
  v_employment_status_detail <~
    row_text row (u8 "employment_status_detail") ;;
  v_prior_experience_months <~
    row_int row (u8 "prior_experience_months") ;;
  v_current_experience_months <~
    row_int row (u8 "current_experience_months") ;;
  v_total_experience_months <~
    row_int row (u8 "total_experience_months") ;;
  Loaded
    {| employee_id := v_employee_id;
       payroll_id := v_payroll_id;
       name := v_name;
       gender := v_gender;
       birthdate := v_birthdate;
       age_group := v_age_group;
       team := v_team;
       part := v_part;
       title := v_title;
       start_date := v_start_date;
       probation_end := v_probation_end;
       resignation_date := v_resignation_date;
       tenure_text := v_tenure_text;
       prior_experience_text := v_prior_experience_text;
       total_experience_text := v_total_experience_text;
       contract_type := v_contract_type;
       phone := v_phone;
       email := v_email;
       work_location := v_work_location;
       job_type := v_job_type;
       employment_status := v_employment_status;
       employment_status_detail := v_employment_status_detail;
       prior_experience_months := v_prior_experience_months;
       current_experience_months := v_current_experience_months;
       total_experience_months := v_total_experience_months |}.

(** The list comprehension of [from_csv]: the rows in turn, the first
    failure ending the load. *)
Fixpoint load_rows (reader : list (dict str)) : loaded (list EmployeeRecord) :=
  match reader with
  | [] => Loaded []
  | row :: rest =>
      employee <~ from_row row ;;
      employees <~ load_rows rest ;;
      Loaded (employee :: employees)
  end.

(** [EmployeeRoster.from_csv], from the rows [csv.DictReader] yields;
    opening the file and splitting it into rows happen outside. *)
Definition from_csv (reader : list (dict str)) : loaded EmployeeRoster :=
  employees <~ load_rows reader ;;
  Loaded {| _employees := employees |}.

End Parsers.

(** What a successful [from_row] says of its row: every field is the
    stripped or parsed cell of its column. *)
Definition row_loads (strptime_ymd : str -> option date)
           (int_of_str : str -> option Z)
           (row : dict str) (r : EmployeeRecord) : Prop :=
  row_text row (u8 "employee_id") = Loaded (employee_id r)
  /\ row_text row (u8 "payroll_id") = Loaded (payroll_id r)
  /\ row_text row (u8 "name") = Loaded (name r)
  /\ row_text row (u8 "gender") = Loaded (gender r)
  /\ row_date strptime_ymd row (u8 "birthdate") = Loaded (birthdate r)
  /\ row_text row (u8 "age_group") = Loaded (age_group r)
  /\ row_text row (u8 "team") = Loaded (team r)
  /\ row_text row (u8 "part") = Loaded (part r)
  /\ row_text row (u8 "title") = Loaded (title r)
  /\ row_date strptime_ymd row (u8 "start_date") = Loaded (start_date r)
  /\ row_date strptime_ymd row (u8 "probation_end")
     = Loaded (probation_end r)
  /\ row_date strptime_ymd row (u8 "resignation_date")
     = Loaded (resignation_date r)
  /\ row_text row (u8 "tenure_text") = Loaded (tenure_text r)
  /\ row_text row (u8 "prior_experience_text")
     = Loaded (prior_experience_text r)
  /\ row_text row (u8 "total_experience_text")
     = Loaded (total_experience_text r)
  /\ row_text row (u8 "contract_type") = Loaded (contract_type r)
  /\ row_text row (u8 "phone") = Loaded (phone r)
  /\ row_text row (u8 "email") = Loaded (email r)
  /\ row_text row (u8 "work_location") = Loaded (work_location r)
  /\ row_text row (u8 "job_type") = Loaded (job_type r)
  /\ row_text row (u8 "employment_status") = Loaded (employment_status r)
  /\ row_text row (u8 "employment_status_detail")
     = Loaded (employment_status_detail r)
  /\ row_int int_of_str row (u8 "prior_experience_months")
     = Loaded (prior_experience_months r)
  /\ row_int int_of_str row (u8 "current_experience_months")
     = Loaded (current_experience_months r)
  /\ row_int int_of_str row (u8 "total_experience_months")
     = Loaded (total_experience_months r).

(** A cell that a parser takes: blank, or text the conversion accepts. *)
Definition cell_parses {T : Type} (convert : str -> option T) (cell : str)
  : bool :=
  match strip cell with
  | [] => true
  | _ :: _ => match convert (strip cell) with Some _ => true | None => false end
  end.

(** Two test conversions, each knowing one text. *)
Definition strptime_example (s : str) : option date :=
  if str_eqb s (u8 "2016-09-01") then Some (ymd 2016 9 1) else None.

Definition int_example (s : str) : option Z :=
  if str_eqb s (u8 "11") then Some 11 else None.

Definition row_example : dict str :=
  example_row
    [("employee_id", " 1 "); ("payroll_id", ""); ("name", "A");
     ("gender", ""); ("birthdate", ""); ("age_group", "");
     ("team", "GURM "); ("part", ""); ("title", ""); ("start_date", "");
     ("probation_end", " 2016-09-01"); ("resignation_date", "  ");
     ("tenure_text", ""); ("prior_experience_text", "");
     ("total_experience_text", ""); ("contract_type", ""); ("phone", "");
     ("email", ""); ("work_location", ""); ("job_type", "");
     ("employment_status", "재직"); ("employment_status_detail", "");
     ("prior_experience_months", "");
     ("current_experience_months", "11");
     ("total_experience_months", "")]%string.

(** The text fields of a record. *)
Definition text_fields (e : EmployeeRecord) : list str :=
  [employee_id e; payroll_id e; name e; gender e; age_group e; team e;
   part e; title e; tenure_text e; prior_experience_text e;
   total_experience_text e; contract_type e; phone e; email e;
   work_location e; job_type e; employment_status e;
   employment_status_detail e].

(* ================================================================= *)
(** * EmployeeRoster.to_table *)

Definition table_headers : list str :=
  Eval cbv in
    map u8 ["사번"; "이름"; "팀"; "직책"; "고용형태"; "근속기간";
            "총경력"]%string.

(** The cells of one employee. *)
Definition table_row (employee : EmployeeRecord) : list str :=
  [employee_id employee;
   name employee;
   str_or (team employee) lit_dash;
   str_or (title employee) lit_dash;
   str_or (contract_type employee) lit_dash;
   tenure_display employee;
   total_experience_display employee].

(** [s.ljust(width)]. *)
Definition ljust (s : str) (width : nat) : str :=
  s ++ repeat 32%N (width - List.length s).

(** [l[idx] = v]; [None] stands for the [IndexError] of an index out of
    range. *)
Fixpoint list_set {A : Type} (l : list A) (idx : nat) (v : A)
  : option (list A) :=
  match l, idx with
  | [], _ => None
  | _ :: t, O => Some (v :: t)
  | x :: t, S i =>
      match list_set t i v with
      | Some t' => Some (x :: t')
      | None => None
      end
  end.

(** [enumerate(l)]. *)
Definition enumerate {A : Type} (l : list A) : list (nat * A) :=
  combine (seq 0 (List.length l)) l.

(** [col_widths[idx] = max(col_widths[idx], len(str(cell)))]. *)
Definition widen_cell (col_widths : list nat) (idx : nat) (cell : str)
  : option (list nat) :=
  match nth_error col_widths idx with
  | None => None
  | Some w => list_set col_widths idx (Nat.max w (List.length cell))
  end.

Definition widen_row (col_widths : list nat) (row : list str)
  : option (list nat) :=
  fold_left
    (fun acc ic =>
       match acc with
       | None => None
       | Some w => widen_cell w (fst ic) (snd ic)
       end)
    (enumerate row) (Some col_widths).

(** The two loops that size the columns. *)
Definition table_widths (rows : list (list str)) : option (list nat) :=
  fold_left
    (fun acc row =>
       match acc with
       | None => None
       | Some w => widen_row w row
       end)
    rows (Some (map (@List.length N) table_headers)).

(** The elements of [l] under [f], unless one of them fails. *)
Fixpoint map_all {A B : Type} (f : A -> option B) (l : list A)
  : option (list B) :=
  match l with
  | [] => Some []
  | x :: t =>
      match f x with
      | None => None
      | Some y =>
          match map_all f t with
          | None => None
          | Some ys => Some (y :: ys)
          end
      end
  end.

Definition lit_column_sep : str := Eval cbv in u8 " | ".
Definition lit_rule_sep : str := Eval cbv in u8 "-+-".
Definition lit_newline : str := [10%N].

(** The inner [format_row] of [to_table]. *)
Definition format_row (col_widths : list nat) (row_values : list str)
  : option str :=
  match map_all
          (fun iv =>
             match nth_error col_widths (fst iv) with
             | None => None
             | Some w => Some (ljust (snd iv) w)
             end)
          (enumerate row_values) with
  | None => None
  | Some cells => Some (join lit_column_sep cells)
  end.

(** The lines of the table: the header, the rule, one line a record. *)
Definition to_table_lines (employees : list EmployeeRecord)
  : option (list str) :=
  let rows := map table_row employees in
  match table_widths rows with
  | None => None
  | Some col_widths =>
      match format_row col_widths table_headers with
      | None => None
      | Some header =>
          let rule :=
            join lit_rule_sep (map (fun width => repeat 45%N width)
                                   col_widths) in
          match map_all (format_row col_widths) rows with
          | None => None
          | Some body => Some (header :: rule :: body)
          end
      end
  end.

Definition to_table (self : EmployeeRoster)
           (employees : list EmployeeRecord) : option str :=
  match to_table_lines employees with
  | None => None
  | Some lines => Some (join lit_newline lines)
  end.

(** The record that [row_example] loads as. *)
Definition record_example : EmployeeRecord :=
  match from_row strptime_example int_example row_example with
  | Loaded r => r
  | LoadError _ => emp_A
  end.

(** The column widths after one more row, and a row that fits widths. *)
Definition grow (col_widths : list nat) (row : list str) : list nat :=
  map (fun wc => Nat.max (fst wc) (List.length (snd wc)))
      (combine col_widths row).

Definition fits (col_widths : list nat) (row : list str) : Prop :=
  Forall2 (fun width cell => (List.length cell <= width)%nat) col_widths row.

(** The cells of a row, each padded to the width of its column. *)
Definition padded (col_widths : list nat) (row : list str) : list str :=
  map (fun cw => ljust (fst cw) (snd cw)) (combine row col_widths).

(* ================================================================= *)
(** * The command line front end: output, input and the commands *)

(** What a session writes: [print(s)] writes the line [s], [input(p)]
    writes the prompt [p] and reads a line. *)
Inductive out : Type :=
| Line (s : str)
| Prompt (s : str).

Inductive cli_exn : Type :=
| EOFError
| IndexError
| Raised (e : exn).

(** The end of an action on the lines still unread: a value and the lines
    left, or an exception. *)
Inductive step (A : Type) : Type :=
| Done (a : A) (rest : list str)
| Fail (e : cli_exn).

Arguments Done {A} a rest.
Arguments Fail {A} e.

(** An action takes the unread input lines and gives what it wrote and
    how it ended. *)
Definition io (A : Type) : Type := list str -> list out * step A.

Definition io_ret {A : Type} (a : A) : io A :=
  fun stdin => ([], Done a stdin).

Definition io_bind {A B : Type} (m : io A) (k : A -> io B) : io B :=
  fun stdin =>
    match m stdin with
    | (w, Done a rest) =>
        match k a rest with
        | (w', s) => (w ++ w', s)
        end
    | (w, Fail e) => (w, Fail e)
    end.

Notation "x <-- m ;; k" := (io_bind m (fun x => k))
  (at level 61, m at next level, right associativity).
Notation "m ;;; k" := (io_bind m (fun _ => k))
  (at level 61, right associativity).

Definition print (s : str) : io unit :=
  fun stdin => ([Line s], Done tt stdin).

(** [input(prompt)]: [EOFError] when no line is left. *)
Definition input (prompt : str) : io str :=
  fun stdin =>
    match stdin with
    | [] => ([Prompt prompt], Fail EOFError)
    | line :: rest => ([Prompt prompt], Done line rest)
    end.

Definition io_raise {A : Type} (e : cli_exn) : io A :=
  fun _ => ([], Fail e).

Definition of_result {A : Type} (r : result A) : io A :=
  match r with
  | Ok a => io_ret a
  | Raise e => io_raise (Raised e)
  end.

(** A call of [to_table]. *)
Definition of_table (t : option str) : io str :=
  match t with
  | Some s => io_ret s
  | None => io_raise IndexError
  end.

(** [for s in lines: print(s)]. *)
Fixpoint print_all (lines : list str) : io unit :=
  match lines with
  | [] => io_ret tt
  | s :: rest => print s ;;; print_all rest
  end.

(** [f"- {key}: {count}명"]. *)
Definition count_line (item : str * Z) : str :=
  u8 "- " ++ fst item ++ u8 ": " ++ str_of_Z (snd item) ++ u8 "명".

Definition cmd_summary (roster : EmployeeRoster) : io unit :=
  let active_count := Z.of_nat (List.length (active roster)) in
  let total_count := len roster in
  avg_tenure <-- of_result (average_tenure_months roster true) ;;
  print (u8 "================") ;;;
  print (u8 "인사 현황 요약") ;;;
  print (u8 "================") ;;;
  print (u8 "전체 인원: " ++ str_of_Z total_count ++ u8 "명") ;;;
  print (u8 "재직 인원: " ++ str_of_Z active_count ++ u8 "명") ;;;
  print (u8 "평균 근속기간(재직자): " ++ _describe_months avg_tenure) ;;;
  print [] ;;;
  print (u8 "[팀별 재직 인원]") ;;;
  print_all (map count_line (summary_by_team roster)) ;;;
  print [] ;;;
  print (u8 "[재직구분별 인원]") ;;;
  print_all (map count_line (summary_by_status roster)).

Definition cmd_list (roster : EmployeeRoster) (active_only : bool) : io unit :=
  let employees := if active_only then active roster else _employees roster in
  match employees with
  | [] => print (u8 "표시할 인원이 없습니다.")
  | _ :: _ =>
      table <-- of_table (to_table roster employees) ;;
      print table
  end.

(** [str(x)] of an optional number: ["None"] when it is absent. *)
Definition str_of_optZ (x : option Z) : str :=
  match x with
  | Some n => str_of_Z n
  | None => u8 "None"
  end.

(** The conversions of the interpreter the front end calls: [str.lower],
    [int], [date.fromisoformat] and [date.strftime("%Y-%m-%d")], with
    [None] for the [ValueError] of the two parsers. *)
Section Cli.

Variable lower : str -> str.
Variable int_of_str : str -> option Z.
Variable fromisoformat : str -> option date.
Variable strftime_ymd : date -> str.

(** The clock: the date [date.today()] gives during the session. *)
Variable today : date.

Definition cmd_search (roster : EmployeeRoster) (keyword : str) : io unit :=
  let results := search lower roster keyword in
  match results with
  | [] =>
      print (u8 "'" ++ keyword ++ u8 "'에 해당하는 인원을 찾을 수 없습니다.")
  | _ :: _ =>
      print (u8 "총 " ++ str_of_Z (Z.of_nat (List.length results))
                ++ u8 "명 발견") ;;;
      table <-- of_table (to_table roster results) ;;
      print table
  end.

(** The line of one employee in [cmd_probation]. *)
Definition probation_line (reference_date : option date)
           (employee : EmployeeRecord) : str :=
  let remaining := probation_days_remaining today employee reference_date in
  let end_date :=
    match probation_end employee with
    | Some d => strftime_ymd d
    | None => lit_dash
    end in
  name employee ++ u8 " (" ++ team employee ++ u8 ") - 종료일: "
       ++ end_date ++ u8 " / D-" ++ str_of_optZ remaining.

Definition cmd_probation (roster : EmployeeRoster) (within_days : Z)
           (reference_date : option date) : io unit :=
  results <-- of_result (upcoming_probation_end today roster within_days
                                                reference_date) ;;
  match results with
  | [] => print (u8 "해당 기간 내 시용 종료 예정자가 없습니다.")
  | _ :: _ =>
      print (u8 "시용 종료 예정자 목록") ;;;
      print (u8 "--------------------") ;;;
      print_all (map (probation_line reference_date) results)
  end.

(** The inner [_pause] of the menu. *)
Definition _pause : io unit :=
  _ <-- input (lit_newline ++ u8 "계속하려면 Enter 키를 누르세요...") ;;
  io_ret tt.

(** How one pass of the menu loop ends: by [return], by [continue], or
    by reaching the end of the loop body. *)
Inductive loop_control : Type :=
| Return
| Continue
| EndOfBody.

Definition quit_words : list str :=
  Eval cbv in map u8 ["q"; "quit"; "exit"]%string.

Definition lit_choice_prompt : str :=
  Eval cbv in u8 "원하는 번호를 입력하세요: ".
Definition lit_goodbye : str := Eval cbv in u8 "프로그램을 종료합니다.".

(** The two [try] blocks of choice 5: the number of days (30 when the
    line is blank) and the reference date (none when the line is blank);
    [None] stands for the [ValueError] each block catches. *)
Definition read_within (within_raw : str) : option Z :=
  match within_raw with
  | [] => Some 30
  | _ :: _ => int_of_str within_raw
  end.

Definition read_reference (reference_raw : str) : option (option date) :=
  match reference_raw with
  | [] => Some None
  | _ :: _ =>
      match fromisoformat reference_raw with
      | Some d => Some (Some d)
      | None => None
      end
  end.

Definition menu_probation (roster : EmployeeRoster) : io loop_control :=
  within_raw <-- input (u8 "며칠 이내 종료 예정자를 볼까요? (기본 30): ") ;;
  match read_within (strip within_raw) with
  | None =>
      print (u8 "숫자로 입력해주세요.") ;;; _pause ;;; io_ret Continue
  | Some within_days =>
      reference_raw <--
        input (u8 "기준일이 있다면 YYYY-MM-DD 형식으로 입력하세요 (엔터시 오늘 기준): ") ;;
      match read_reference (strip reference_raw) with
      | None =>
          print (u8 "날짜 형식이 올바르지 않습니다.") ;;;
          _pause ;;; io_ret Continue
      | Some reference_date =>
          print [] ;;;
          cmd_probation roster within_days reference_date ;;;
          _pause ;;; io_ret EndOfBody
      end
  end.

(** The branches of the loop body on the choice read. *)
Definition menu_choice (roster : EmployeeRoster) (choice : str)
  : io loop_control :=
  if existsb (str_eqb choice) quit_words then
    print lit_goodbye ;;; io_ret Return
  else if str_eqb choice (u8 "1") then
    cmd_summary roster ;;; _pause ;;; io_ret EndOfBody
  else if str_eqb choice (u8 "2") then
    cmd_list roster false ;;; _pause ;;; io_ret EndOfBody
  else if str_eqb choice (u8 "3") then
    cmd_list roster true ;;; _pause ;;; io_ret EndOfBody
  else if str_eqb choice (u8 "4") then
    keyword <-- input (u8 "검색어를 입력하세요: ") ;;
    let keyword := strip keyword in
    match keyword with
    | [] => print (u8 "검색어를 입력하지 않았습니다.")
    | _ :: _ => print [] ;;; cmd_search roster keyword
    end ;;;
    _pause ;;; io_ret EndOfBody
  else if str_eqb choice (u8 "5") then
    menu_probation roster
  else
    print (u8 "지원하지 않는 선택입니다. 다시 입력해주세요.") ;;;
    _pause ;;; io_ret EndOfBody.

Definition menu_banner : list str :=
  Eval cbv in
    map u8 ["==========================";
            "인사 명부 도우미 (MVP)";
            "==========================";
            "1. 전체 요약 보기";
            "2. 전체 직원 목록 보기";
            "3. 재직자만 목록 보기";
            "4. 이름/팀/직책 검색";
            "5. 시용 종료 예정자 확인";
            "Q. 종료"]%string.

(** One pass of the [while True] loop. *)
Definition menu_pass (roster : EmployeeRoster) : io loop_control :=
  print_all menu_banner ;;;
  choice <-- input lit_choice_prompt ;;
  let choice := lower (strip choice) in
  print [] ;;;
  control <-- menu_choice roster choice ;;
  match control with
  | EndOfBody => print [] ;;; io_ret EndOfBody
  | _ => io_ret control
  end.

(** [run_interactive_menu]: the loop, at most [fuel] passes of it.  The
    value is [true] when the menu returned and [false] when the passes
    ran out first. *)
Fixpoint run_interactive_menu (fuel : nat) (roster : EmployeeRoster)
  : io bool :=
  match fuel with
  | O => io_ret false
  | S fuel' =>
      control <-- menu_pass roster ;;
      match control with
      | Return => io_ret true
      | _ => run_interactive_menu fuel' roster
      end
  end.

End Cli.

(** Test conversions for the examples: a date written as its ordinal,
    and the one date text 9999-12-31. *)
Definition strftime_example (d : date) : str := str_of_Z d.

Definition fromisoformat_example (s : str) : option date :=
  if str_eqb s (u8 "9999-12-31") then Some date_max else None.

(** An action that, when it ends well, has read at least [n] lines. *)
Definition reads {A : Type} (n : nat) (m : io A) : Prop :=
  forall stdin,
    match snd (m stdin) with
    | Done _ rest => (List.length rest + n <= List.length stdin)%nat
    | Fail _ => True
    end.

(** The table as the text [print] receives. *)
Definition table_text (employees : list EmployeeRecord) : str :=
  match to_table_lines employees with
  | Some lines => join lit_newline lines
  | None => []
  end.


(* ================================================================= *)
(** * Facts about strings *)

Lemma str_eqb_eq (a b : str) : str_eqb a b = true <-> a = b.
Proof.
  revert b; induction a as [|x a IH]; intros [|y b]; simpl;
    try (split; [discriminate | congruence]); try tauto.
  rewrite andb_true_iff, N.eqb_eq, IH.
  split; [intros [-> ->]; reflexivity | intros [= -> ->]; auto].
Qed.

Lemma str_eqb_refl (a : str) : str_eqb a a = true.
Proof. apply str_eqb_eq; reflexivity. Qed.

Lemma str_eqb_neq (a b : str) : str_eqb a b = false <-> a <> b.
Proof.
  rewrite <- str_eqb_eq. destruct (str_eqb a b); split; congruence.
Qed.

Lemma startswith_prefix (p s : str) :
  startswith p s = true <-> exists post, s = p ++ post.
Proof.
  revert s; induction p as [|x p IH]; intros s; simpl.
  - split; [intros _; exists s; reflexivity | reflexivity].
  - destruct s as [|y s].
    + split; [discriminate | intros [post H]; discriminate].
    + rewrite andb_true_iff, N.eqb_eq, IH. split.
      * intros [-> [post ->]]. exists post; reflexivity.
      * intros [post [= -> ->]]. split; [reflexivity | exists post; reflexivity].
Qed.

(** [sub in s] holds exactly when [sub] occurs in [s] as a contiguous run. *)
Lemma contains_substring (sub s : str) :
  contains sub s = true <-> exists pre post, s = pre ++ sub ++ post.
Proof.
  induction s as [|c s IH].
  - simpl. rewrite orb_false_r, startswith_prefix. split.
    + intros [post H]. exists [], post. exact H.
    + intros [pre [post H]]. destruct pre; simpl in H.
      * exists post; exact H.
      * discriminate.
  - cbn [contains]. rewrite orb_true_iff, startswith_prefix, IH. split.
    + intros [[post H] | [pre [post H]]].
      * exists [], post. exact H.
      * exists (c :: pre), post. rewrite H. reflexivity.
    + intros [pre [post H]]. destruct pre as [|c' pre]; simpl in H.
      * left. exists post. exact H.
      * right. injection H as _ H. exists pre, post. exact H.
Qed.

Lemma lstrip_head (s : str) (c : N) (t : str) :
  lstrip s = c :: t -> py_isspace c = false.
Proof.
  induction s as [|x s IH]; simpl; [discriminate|].
  destruct (py_isspace x) eqn:E; [exact IH|].
  intros [= <- _]. exact E.
Qed.

Lemma lstrip_keeps (l : str) (c : N) (r : str) :
  py_isspace c = false -> lstrip (l ++ c :: r) = lstrip l ++ c :: r.
Proof.
  intros Hc. induction l as [|x l IH]; simpl.
  - rewrite Hc. reflexivity.
  - destruct (py_isspace x); [exact IH | reflexivity].
Qed.

Lemma lstrip_idem (s : str) : lstrip (lstrip s) = lstrip s.
Proof.
  induction s as [|x s IH]; simpl; [reflexivity|].
  destruct (py_isspace x) eqn:E; [exact IH|].
  simpl. rewrite E. reflexivity.
Qed.

Lemma rstrip_idem (s : str) : rstrip (rstrip s) = rstrip s.
Proof.
  unfold rstrip. rewrite rev_involutive, lstrip_idem. reflexivity.
Qed.

Lemma rstrip_cons (c : N) (t : str) :
  py_isspace c = false -> rstrip (c :: t) = c :: rstrip t.
Proof.
  intros Hc. unfold rstrip. simpl rev at 2.
  rewrite lstrip_keeps by exact Hc.
  rewrite rev_app_distr. reflexivity.
Qed.

Lemma strip_idem (s : str) : strip (strip s) = strip s.
Proof.
  unfold strip. destruct (lstrip s) as [|c t] eqn:E.
  - reflexivity.
  - pose proof (lstrip_head _ _ _ E) as Hc.
    rewrite (rstrip_cons c t Hc). simpl lstrip. rewrite Hc.
    rewrite <- (rstrip_cons c t Hc). apply rstrip_idem.
Qed.

Lemma lstrip_nil (s : str) : lstrip s = [] <-> forallb py_isspace s = true.
Proof.
  induction s as [|x s IH]; simpl; [tauto|].
  destruct (py_isspace x); simpl; [exact IH|].
  split; discriminate.
Qed.

Lemma forallb_rev {A : Type} (p : A -> bool) (l : list A) :
  forallb p (rev l) = forallb p l.
Proof.
  induction l as [|x l IH]; simpl; [reflexivity|].
  rewrite forallb_app, IH. simpl. rewrite andb_true_r. apply andb_comm.
Qed.

Lemma forallb_lstrip (s : str) :
  forallb py_isspace (lstrip s) = forallb py_isspace s.
Proof.
  induction s as [|x s IH]; simpl; [reflexivity|].
  destruct (py_isspace x) eqn:E; simpl; [exact IH|].
  rewrite E. reflexivity.
Qed.

(** A keyword strips to the empty string exactly when it is empty or made
    of whitespace alone. *)
Lemma strip_nil (s : str) : strip s = [] <-> forallb py_isspace s = true.
Proof.
  unfold strip, rstrip. split.
  - intros H. apply (f_equal (@rev N)) in H. rewrite rev_involutive in H.
    simpl in H. apply lstrip_nil in H.
    rewrite forallb_rev, forallb_lstrip in H. exact H.
  - intros H. rewrite <- forallb_lstrip, <- forallb_rev in H.
    apply lstrip_nil in H. rewrite H. reflexivity.
Qed.

(* ================================================================= *)
(** * Facts about the stable sort *)

Section SortFacts.

Context {A K : Type}.
Variable ltb : K -> K -> bool.
Variable key : A -> K.

Hypothesis ltb_asym : forall a b, ltb a b = true -> ltb b a = false.
Hypothesis leb_trans :
  forall a b c, ltb b a = false -> ltb c b = false -> ltb c a = false.

Lemma ltb_irrefl (a : K) : ltb a a = false.
Proof.
  destruct (ltb a a) eqn:E; [|reflexivity].
  rewrite (ltb_asym _ _ E) in E. discriminate.
Qed.

Lemma sort_insert_perm (x : A) (l : list A) : Permutation (x :: l) (sort_insert ltb key x l).
Proof.
  induction l as [|y t IH]; simpl; [reflexivity|].
  destruct (ltb (key y) (key x)); [|reflexivity].
  rewrite perm_swap. constructor. exact IH.
Qed.

Lemma sorted_perm (l : list A) : Permutation l (sorted ltb key l).
Proof.
  induction l as [|x t IH]; simpl; [constructor|].
  rewrite <- sort_insert_perm. constructor. exact IH.
Qed.

Lemma sorted_In (l : list A) (a : A) : In a (sorted ltb key l) <-> In a l.
Proof.
  split; apply Permutation_in; [symmetry|]; apply sorted_perm.
Qed.

Lemma sort_insert_sorted (x : A) (l : list A) :
  StronglySorted (key_le ltb key) l -> StronglySorted (key_le ltb key) (sort_insert ltb key x l).
Proof.
  induction 1 as [|y t Ht IH Hy]; simpl.
  - constructor; constructor.
  - destruct (ltb (key y) (key x)) eqn:E.
    + constructor; [exact IH|].
      rewrite Forall_forall in *. intros z Hz.
      apply (Permutation_in _ (Permutation_sym (sort_insert_perm x t))) in Hz.
      destruct Hz as [<- | Hz]; [apply ltb_asym; exact E | auto].
    + constructor; [constructor; assumption|].
      constructor; [exact E|].
      rewrite Forall_forall in *. intros z Hz.
      apply (leb_trans _ (key y)); [exact E | apply Hy; exact Hz].
Qed.

(** The result is in ascending order of the keys. *)
Lemma sorted_sorted (l : list A) : StronglySorted (key_le ltb key) (sorted ltb key l).
Proof.
  induction l as [|x t IH]; simpl; [constructor|].
  apply sort_insert_sorted. exact IH.
Qed.

Lemma sort_insert_filter (p : A -> bool) (x : A) (l : list A) :
  (forall y, ltb (key y) (key x) = true -> p x = true -> p y = false) ->
  filter p (sort_insert ltb key x l) = filter p (x :: l).
Proof.
  intros Hp. induction l as [|y t IH]; simpl; [reflexivity|].
  destruct (ltb (key y) (key x)) eqn:E; [|reflexivity].
  simpl. simpl in IH. rewrite IH.
  pose proof (Hp y E) as Hy.
  destruct (p x); [|reflexivity].
  rewrite (Hy eq_refl). reflexivity.
Qed.

(** The sort is stable: the elements that share a key keep their order. *)
Lemma sorted_stable (k : K) (l : list A) :
  filter (same_key ltb key k) (sorted ltb key l) = filter (same_key ltb key k) l.
Proof.
  induction l as [|x t IH]; simpl; [reflexivity|].
  rewrite sort_insert_filter.
  - simpl. rewrite IH. reflexivity.
  - intros y Hlt Hx. unfold same_key in *.
    apply andb_true_iff in Hx as [_ Hx]. apply negb_true_iff in Hx.
    destruct (ltb (key y) k) eqn:E1; [reflexivity|].
    rewrite (leb_trans _ _ _ Hx E1) in Hlt. discriminate.
Qed.

(** Two ascending lists with the same elements under every key, in the
    same order, are one list: a stable sort has one possible result. *)
Lemma stable_sorted_unique (l1 l2 : list A) :
  StronglySorted (key_le ltb key) l1 -> StronglySorted (key_le ltb key) l2 ->
  (forall k, filter (same_key ltb key k) l1 = filter (same_key ltb key k) l2) ->
  l1 = l2.
Proof.
  assert (Hrefl : forall a, same_key ltb key (key a) a = true).
  { intros a. unfold same_key. rewrite ltb_irrefl. reflexivity. }
  assert (Hhead : forall a t l, StronglySorted (key_le ltb key) l ->
            (forall k, filter (same_key ltb key k) (a :: t)
                       = filter (same_key ltb key k) l) ->
            match l with [] => False | b :: _ => (key_le ltb key) b a end).
  { intros a t l Hl H. specialize (H (key a)). simpl in H.
    rewrite Hrefl in H. destruct l as [|b l']; [discriminate|].
    assert (Ha : In a (b :: l')).
    { eapply proj1. apply filter_In. rewrite <- H. left. reflexivity. }
    destruct Ha as [-> | Ha]; [apply ltb_irrefl|].
    inversion Hl as [|? ? _ Hb]; subst.
    rewrite Forall_forall in Hb. apply Hb. exact Ha. }
  revert l2. induction l1 as [|a t1 IH]; intros l2 H1 H2 H.
  - destruct l2 as [|b t2]; [reflexivity|].
    specialize (H (key b)). simpl in H. rewrite Hrefl in H. discriminate.
  - pose proof (Hhead a t1 l2 H2 H) as Hba.
    destruct l2 as [|b t2]; [contradiction|].
    pose proof (Hhead b t2 (a :: t1) H1 (fun k => eq_sym (H k))) as Hab.
    unfold key_le in Hba, Hab.
    assert (Heq : a = b).
    { specialize (H (key a)). simpl in H. rewrite Hrefl in H.
      unfold same_key at 2 in H. rewrite Hba, Hab in H. simpl in H.
      congruence. }
    subst b. f_equal. inversion H1; inversion H2; subst.
    apply IH; [assumption..|].
    intros k. specialize (H k). simpl in H.
    destruct (same_key ltb key k a); congruence.
Qed.

(** So [sorted] is the one result every stable sort by these keys gives,
    whatever its algorithm. *)
Corollary sorted_unique (l l' : list A) :
  StronglySorted (key_le ltb key) l' ->
  (forall k, filter (same_key ltb key k) l' = filter (same_key ltb key k) l) ->
  l' = sorted ltb key l.
Proof.
  intros Hs Hf. apply stable_sorted_unique;
    [exact Hs | apply sorted_sorted |].
  intros k. rewrite sorted_stable. apply Hf.
Qed.

End SortFacts.

(* ================================================================= *)
(** * The two key orders *)

Lemma Zltb_asym (a b : Z) : (a <? b) = true -> (b <? a) = false.
Proof. lia. Qed.

Lemma Zleb_trans (a b c : Z) :
  (b <? a) = false -> (c <? b) = false -> (c <? a) = false.
Proof. lia. Qed.

Ltac n_cases x y :=
  destruct (N.ltb_spec x y); destruct (N.eqb_spec x y);
  destruct (N.ltb_spec y x); destruct (N.eqb_spec y x);
  try lia; subst; simpl in *.

Lemma str_ltb_asym (a b : str) : str_ltb a b = true -> str_ltb b a = false.
Proof.
  revert b; induction a as [|x a IH]; intros [|y b]; simpl; try congruence.
  n_cases x y; try congruence. apply IH.
Qed.

Lemma str_ltb_total (a b : str) :
  str_ltb a b = false -> str_ltb b a = false -> a = b.
Proof.
  revert b; induction a as [|x a IH]; intros [|y b]; simpl; try congruence.
  n_cases x y; try congruence. intros H1 H2. f_equal. apply IH; assumption.
Qed.

Lemma str_leb_trans (a b c : str) :
  str_ltb b a = false -> str_ltb c b = false -> str_ltb c a = false.
Proof.
  revert b c; induction a as [|x a IH]; intros [|y b] [|z c]; simpl;
    try congruence.
  destruct (N.ltb_spec y x); destruct (N.eqb_spec y x);
    destruct (N.ltb_spec z y); destruct (N.eqb_spec z y);
    destruct (N.ltb_spec z x); destruct (N.eqb_spec z x);
    simpl; try congruence; try lia.
  apply IH.
Qed.

(* ================================================================= *)
(** * Facts about dictionaries *)

Lemma fold_add_acc (l : list Z) (a : Z) :
  fold_left Z.add l a = a + fold_left Z.add l 0.
Proof.
  revert a; induction l as [|x l IH]; intros a; simpl; [lia|].
  rewrite (IH (a + x)), (IH x). lia.
Qed.

Lemma sum_Z_cons (x : Z) (l : list Z) : sum_Z (x :: l) = x + sum_Z l.
Proof. unfold sum_Z. simpl. apply fold_add_acc. Qed.

Lemma sum_Z_app (l1 l2 : list Z) : sum_Z (l1 ++ l2) = sum_Z l1 + sum_Z l2.
Proof.
  induction l1 as [|x l1 IH]; simpl; [reflexivity|].
  rewrite !sum_Z_cons, IH. lia.
Qed.

Lemma sum_Z_perm (l1 l2 : list Z) : Permutation l1 l2 -> sum_Z l1 = sum_Z l2.
Proof.
  induction 1; rewrite ?sum_Z_cons; lia.
Qed.

Section DictFacts.

Context {V : Type}.

Lemma dict_get_set (d : dict V) (k : str) (v : V) (k' : str) (dflt : V) :
  dict_get (dict_set d k v) k' dflt
  = if str_eqb k k' then v else dict_get d k' dflt.
Proof.
  induction d as [|[k0 v0] t IH]; simpl; [reflexivity|].
  destruct (str_eqb k0 k) eqn:E; simpl.
  - apply str_eqb_eq in E. subst k0. destruct (str_eqb k k'); reflexivity.
  - rewrite IH. destruct (str_eqb k0 k') eqn:E'; [|reflexivity].
    apply str_eqb_eq in E'. subst k0.
    destruct (str_eqb k k') eqn:E2; [|reflexivity].
    apply str_eqb_eq in E2. subst k'. rewrite str_eqb_refl in E.
    discriminate.
Qed.

Lemma dict_set_keys (d : dict V) (k : str) (v : V) (k' : str) :
  In k' (keys (dict_set d k v)) <-> k' = k \/ In k' (keys d).
Proof.
  induction d as [|[k0 v0] t IH]; simpl; [intuition congruence|].
  destruct (str_eqb k0 k) eqn:E; simpl.
  - apply str_eqb_eq in E. subst k0. intuition congruence.
  - rewrite IH. tauto.
Qed.

Lemma dict_set_NoDup (d : dict V) (k : str) (v : V) :
  NoDup (keys d) -> NoDup (keys (dict_set d k v)).
Proof.
  induction d as [|[k0 v0] t IH]; simpl; intros H.
  - constructor; [intros []|constructor].
  - inversion H as [|? ? Hn Ht]; subst.
    destruct (str_eqb k0 k) eqn:E; simpl; [constructor; assumption|].
    constructor; [|apply IH; exact Ht].
    fold (keys (dict_set t k v)). rewrite dict_set_keys.
    intros [-> | Hin]; [|contradiction].
    rewrite str_eqb_refl in E. discriminate.
Qed.

Lemma dict_set_fresh (d : dict V) (k : str) (v : V) :
  ~ In k (keys d) -> dict_set d k v = d ++ [(k, v)].
Proof.
  induction d as [|[k0 v0] t IH]; simpl; intros H; [reflexivity|].
  destruct (str_eqb k0 k) eqn:E.
  - apply str_eqb_eq in E. tauto.
  - rewrite IH by tauto. reflexivity.
Qed.

Lemma dict_get_In (d : dict V) (k : str) (v dflt : V) :
  NoDup (keys d) -> In (k, v) d -> dict_get d k dflt = v.
Proof.
  induction d as [|[k0 v0] t IH]; simpl; intros Hnd Hin; [contradiction|].
  inversion Hnd as [|? ? Hn Ht]; subst.
  destruct Hin as [[= -> ->] | Hin].
  - rewrite str_eqb_refl. reflexivity.
  - destruct (str_eqb k0 k) eqn:E; [|apply IH; assumption].
    apply str_eqb_eq in E. subst k0. exfalso. apply Hn.
    apply (in_map fst) in Hin. exact Hin.
Qed.

Lemma dict_get_fresh (d : dict V) (k : str) (dflt : V) :
  ~ In k (keys d) -> dict_get d k dflt = dflt.
Proof.
  induction d as [|[k0 v0] t IH]; simpl; intros H; [reflexivity|].
  destruct (str_eqb k0 k) eqn:E; [|apply IH; tauto].
  apply str_eqb_eq in E. tauto.
Qed.

(** With distinct keys, a lookup does not depend on the order of items. *)
Lemma dict_get_perm (d d' : dict V) (k : str) (dflt : V) :
  NoDup (keys d) -> Permutation d d' ->
  dict_get d k dflt = dict_get d' k dflt.
Proof.
  intros Hnd Hp.
  assert (Hnd' : NoDup (keys d')).
  { eapply Permutation_NoDup; [apply Permutation_map; exact Hp | exact Hnd]. }
  destruct (in_dec (list_eq_dec N.eq_dec) k (keys d)) as [Hin | Hout].
  - apply in_map_iff in Hin as [[k0 v] [Hk Hin]]. simpl in Hk. subst k0.
    rewrite (dict_get_In d k v dflt Hnd Hin).
    symmetry. apply dict_get_In; [exact Hnd'|].
    eapply Permutation_in; eassumption.
  - rewrite (dict_get_fresh d k dflt Hout).
    symmetry. apply dict_get_fresh. intros Hin. apply Hout.
    eapply Permutation_in; [|exact Hin].
    apply Permutation_map. symmetry. exact Hp.
Qed.

(** [dict(items)] of items with distinct keys holds the items as given. *)
Lemma dict_of_items_acc (items acc : list (str * V)) :
  NoDup (keys (acc ++ items)) ->
  fold_left (fun d kv => dict_set d (fst kv) (snd kv)) items acc
  = acc ++ items.
Proof.
  revert acc; induction items as [|[k v] t IH]; intros acc H; simpl.
  - rewrite app_nil_r. reflexivity.
  - assert (Hk : ~ In k (keys acc)).
    { unfold keys in *. rewrite map_app in H. simpl in H.
      apply NoDup_remove_2 in H. intros Hin. apply H.
      apply in_or_app. left. exact Hin. }
    rewrite (dict_set_fresh acc k v Hk).
    rewrite IH; rewrite <- app_assoc; [reflexivity | exact H].
Qed.

Lemma dict_of_items_id (items : list (str * V)) :
  NoDup (keys items) -> dict_of_items items = items.
Proof. intros H. apply (dict_of_items_acc items []). exact H. Qed.

(** Ascending keys that are distinct ascend strictly. *)
Lemma sorted_keys_strict (d : dict V) :
  StronglySorted (key_le str_ltb fst) d -> NoDup (keys d) ->
  StronglySorted (fun a b => str_ltb a b = true) (keys d).
Proof.
  induction 1 as [|[k v] t Ht IH Hk]; simpl; intros Hnd; [constructor|].
  inversion Hnd as [|? ? Hn Hnt]; subst.
  constructor; [apply IH; exact Hnt|].
  rewrite Forall_forall in *. intros k' Hin.
  pose proof Hin as Hin'.
  apply in_map_iff in Hin' as [[k0 v0] [Hk0 Hin']]. simpl in Hk0. subst k0.
  specialize (Hk _ Hin'). unfold key_le in Hk. simpl in Hk.
  destruct (str_ltb k k') eqn:E; [reflexivity|].
  exfalso. apply Hn. rewrite (str_ltb_total k k' E Hk). exact Hin.
Qed.

End DictFacts.

Lemma dict_set_sum (d : dict Z) (k : str) (v : Z) :
  sum_Z (values (dict_set d k v)) = sum_Z (values d) - dict_get d k 0 + v.
Proof.
  induction d as [|[k0 v0] t IH]; simpl.
  - rewrite sum_Z_cons. unfold sum_Z. simpl. lia.
  - destruct (str_eqb k0 k); simpl; rewrite !sum_Z_cons.
    + lia.
    + fold (values (dict_set t k v)). fold (values t). rewrite IH. lia.
Qed.

(* ================================================================= *)
(** * The counting loop and the sorted summary *)

Section TallyFacts.

Variable key : EmployeeRecord -> str.

Lemma tally_acc_get (l : list EmployeeRecord) (acc : dict Z) (k : str) :
  dict_get (fold_left (tally_step key) l acc) k 0 = dict_get acc k 0 + count_key key k l.
Proof.
  revert acc; induction l as [|e t IH]; intros acc; simpl.
  - unfold count_key. simpl. lia.
  - rewrite IH. unfold tally_step. rewrite dict_get_set.
    unfold count_key. simpl filter.
    destruct (str_eqb (key e) k) eqn:E.
    + apply str_eqb_eq in E. rewrite E. simpl List.length. lia.
    + lia.
Qed.

Lemma tally_acc_sum (l : list EmployeeRecord) (acc : dict Z) :
  sum_Z (values (fold_left (tally_step key) l acc))
  = sum_Z (values acc) + Z.of_nat (List.length l).
Proof.
  revert acc; induction l as [|e t IH]; intros acc; simpl List.length.
  - simpl. lia.
  - simpl fold_left. rewrite IH. unfold tally_step. rewrite dict_set_sum. lia.
Qed.

Lemma tally_acc_NoDup (l : list EmployeeRecord) (acc : dict Z) :
  NoDup (keys acc) -> NoDup (keys (fold_left (tally_step key) l acc)).
Proof.
  revert acc; induction l as [|e t IH]; intros acc H; simpl; [exact H|].
  apply IH. apply dict_set_NoDup. exact H.
Qed.

Lemma tally_acc_keys (l : list EmployeeRecord) (acc : dict Z) (k : str) :
  In k (keys (fold_left (tally_step key) l acc))
  <-> In k (keys acc) \/ exists e, In e l /\ key e = k.
Proof.
  revert acc; induction l as [|e t IH]; intros acc; simpl.
  - split; [tauto | intros [H | [e [[] _]]]; exact H].
  - rewrite IH. unfold tally_step. rewrite dict_set_keys. split.
    + intros [[-> | H] | [e' [H1 H2]]]; eauto.
    + intros [H | [e' [[<- | H1] H2]]]; eauto.
Qed.

(** What [summary_by_team] and [summary_by_status] return, the grouping
    key and the population left open. *)
Lemma summary_facts (l : list EmployeeRecord) :
  let s := dict_of_items (sorted str_ltb fst (tally key l)) in
  sum_Z (values s) = Z.of_nat (List.length l)
  /\ (forall k, dict_get s k 0 = count_key key k l)
  /\ (forall k, In k (keys s) <-> exists e, In e l /\ key e = k)
  /\ NoDup (keys s)
  /\ StronglySorted (fun a b => str_ltb a b = true) (keys s).
Proof.
  set (t := tally key l).
  assert (Hperm : Permutation t (sorted str_ltb fst t))
    by apply sorted_perm.
  assert (Hnd : NoDup (keys t)).
  { apply (tally_acc_NoDup l []). constructor. }
  assert (Hnd' : NoDup (keys (sorted str_ltb fst t))).
  { eapply Permutation_NoDup; [apply Permutation_map; exact Hperm|exact Hnd]. }
  cbv zeta. rewrite (dict_of_items_id _ Hnd').
  repeat split.
  - rewrite <- (sum_Z_perm (values t) (values (sorted str_ltb fst t))
                           (Permutation_map snd Hperm)).
    apply (tally_acc_sum l []).
  - intros k. rewrite <- (dict_get_perm t _ k 0 Hnd Hperm).
    apply (tally_acc_get l [] k).
  - intros Hin.
    apply (Permutation_in _ (Permutation_sym (Permutation_map fst Hperm)))
      in Hin.
    apply (tally_acc_keys l [] k) in Hin as [[] | H]. exact H.
  - intros H.
    apply (Permutation_in _ (Permutation_map fst Hperm)).
    apply (tally_acc_keys l [] k). right. exact H.
  - exact Hnd'.
  - apply sorted_keys_strict; [|exact Hnd'].
    apply sorted_sorted; [apply str_ltb_asym | apply str_leb_trans].
Qed.

End TallyFacts.

(* ================================================================= *)
(** * EmployeeRecord.is_active *)

(** C1. A record is active exactly when it has no resignation date and
    its employment status contains "재직"; a resignation date makes it
    inactive whatever the status says. *)
Theorem is_active_iff (self : EmployeeRecord) :
  (is_active self = true <->
   resignation_date self = None /\
   exists pre post, employment_status self = pre ++ lit_employed ++ post)
  /\ (forall d, resignation_date self = Some d -> is_active self = false).
Proof.
  unfold is_active. split.
  - destruct (resignation_date self) as [d|].
    + split; [discriminate | intros [H _]; discriminate].
    + rewrite contains_substring. tauto.
  - intros d ->. reflexivity.
Qed.

Example is_active_resigned_employed :
  is_active (employee [] [] [] (u8 "재직") None (Some (ymd 2020 1 31)) None)
  = false.
Proof. reflexivity. Qed.

(* ================================================================= *)
(** * EmployeeRoster.search *)

Section SearchFacts.

Variable lower : str -> str.


(** C4, as the code has it. A keyword that is empty or all whitespace
    finds nothing; any other keyword finds the records that match the
    stripped keyword, in roster order. *)
Theorem search_stripped_keyword (self : EmployeeRoster) (keyword : str) :
  (forallb py_isspace keyword = true -> search lower self keyword = [])
  /\ (forallb py_isspace keyword = false ->
      search lower self keyword
      = filter (fun e => matches lower e (strip keyword)) (_employees self)).
Proof.
  unfold search. split; intros H.
  - apply strip_nil in H. rewrite H. reflexivity.
  - destruct (strip keyword) as [|c t] eqn:E; [|reflexivity].
    apply strip_nil in E. congruence.
Qed.

End SearchFacts.

(** With blanks around it the keyword itself matches no record, yet the
    search finds the two members of the team. *)
Lemma search_keyword_with_blanks :
  forallb py_isspace (u8 " GURM ") = false
  /\ search lower_ascii roster_example (u8 " GURM ") = [emp_A; emp_B]
  /\ filter (fun e => matches lower_ascii e (u8 " GURM "))
            (_employees roster_example) = [].
Proof. repeat split. Qed.

(* ================================================================= *)
(** * The two summaries *)

(** C6. The team summary splits the active staff: the counts add up to
    [len(active())], every active record falls under its one team key
    ("(미지정)" for an empty team), the count under a key is the number of
    active records with that key, and the keys ascend strictly. *)
Theorem summary_by_team_partition (self : EmployeeRoster) :
  let s := summary_by_team self in
  sum_Z (values s) = Z.of_nat (List.length (active self))
  /\ (forall e, In e (active self) -> In (team_key e) (keys s))
  /\ (forall k, dict_get s k 0 = count_key team_key k (active self))
  /\ (forall k, In k (keys s) -> exists e, In e (active self) /\ team_key e = k)
  /\ NoDup (keys s)
  /\ StronglySorted (fun a b => str_ltb a b = true) (keys s)
  /\ (forall e, team_key e
                = match team e with [] => lit_unspecified | _ :: _ => team e end).
Proof.
  destruct (summary_facts team_key (active self)) as (H1 & H2 & H3 & H4 & H5).
  cbv zeta. unfold summary_by_team. repeat split; try assumption.
  - intros e He. apply H3. exists e. split; [exact He | reflexivity].
  - intros k Hk. apply H3. exact Hk.
Qed.

(** C10. The status summary counts every record once: the counts add up
    to [len(roster)], and the count under a key is the number of records
    with that status key ("(미지정)" for an empty status). *)
Theorem summary_by_status_total (self : EmployeeRoster) :
  let s := summary_by_status self in
  sum_Z (values s) = len self
  /\ (forall e, In e (_employees self) -> In (status_key e) (keys s))
  /\ (forall k, dict_get s k 0 = count_key status_key k (_employees self))
  /\ NoDup (keys s)
  /\ (forall e, status_key e
                = match employment_status e with
                  | [] => lit_unspecified
                  | _ :: _ => employment_status e
                  end).
Proof.
  destruct (summary_facts status_key (_employees self))
    as (H1 & H2 & H3 & H4 & H5).
  cbv zeta. unfold summary_by_status, len. repeat split; try assumption.
  intros e He. apply H3. exists e. split; [exact He | reflexivity].
Qed.

Example summary_by_team_example :
  summary_by_team roster_example = [(u8 "GURM", 2); (u8 "임원", 1)].
Proof. reflexivity. Qed.

Example summary_by_status_example :
  summary_by_status roster_example = [(u8 "재직", 3); (u8 "퇴직", 1)].
Proof. reflexivity. Qed.

(* ================================================================= *)
(** * EmployeeRoster.upcoming_probation_end *)

Lemma probation_window_acc (rd we : date) (l acc : list EmployeeRecord) :
  fold_left
    (fun results employee =>
       match probation_end employee with
       | None => results
       | Some pe =>
           if (rd <=? pe) && (pe <=? we) then results ++ [employee]
           else results
       end) l acc
  = acc ++ filter (in_window rd we) l.
Proof.
  revert acc; induction l as [|e t IH]; intros acc; simpl.
  - rewrite app_nil_r. reflexivity.
  - rewrite IH. unfold in_window at 2.
    destruct (probation_end e) as [pe|]; [|reflexivity].
    destruct ((rd <=? pe) && (pe <=? we)); [|reflexivity].
    rewrite <- app_assoc. reflexivity.
Qed.

(** The loop keeps, in order, the employees whose date is in the window. *)
Lemma probation_window_filter (rd we : date) (l : list EmployeeRecord) :
  probation_window rd we l = filter (in_window rd we) l.
Proof. apply (probation_window_acc rd we l []). Qed.

Lemma in_window_iff (rd we : date) (e : EmployeeRecord) :
  in_window rd we e = true
  <-> exists pe, probation_end e = Some pe /\ rd <= pe <= we.
Proof.
  unfold in_window. destruct (probation_end e) as [pe|].
  - rewrite andb_true_iff, !Z.leb_le. split.
    + intros H. exists pe. split; [reflexivity | lia].
    + intros [pe' [[= <-] H]]. lia.
  - split; [discriminate | intros [pe [H _]]; discriminate].
Qed.


Lemma upcoming_probation_end_inv (today : date) (self : EmployeeRoster)
      (within_days : Z) (reference_date : option date)
      (results : list EmployeeRecord) :
  let rd := or_today today reference_date in
  upcoming_probation_end today self within_days reference_date = Ok results ->
  results = sorted Z.ltb probation_key
                   (filter (in_window rd (rd + within_days)) (active self)).
Proof.
  intros rd. unfold upcoming_probation_end, timedelta_of_days. fold rd.
  destruct ((-999999999 <=? within_days) && (within_days <=? 999999999));
    cbn [bind]; [|discriminate].
  unfold date_add.
  destruct ((0 <? rd + within_days) && (rd + within_days <=? _MAXORDINAL));
    cbn [bind]; [|discriminate].
  rewrite probation_window_filter. congruence.
Qed.



Lemma StronglySorted_weaken {A : Type} (R R' : A -> A -> Prop) (P : A -> Prop)
      (l : list A) :
  (forall a b, P a -> P b -> R a b -> R' a b) ->
  Forall P l -> StronglySorted R l -> StronglySorted R' l.
Proof.
  intros HR HP. induction 1 as [|a t Ht IH Ha]; [constructor|].
  inversion HP as [|? ? Pa Pt]; subst.
  constructor; [apply IH; exact Pt|].
  rewrite Forall_forall in *. intros b Hb.
  apply HR; auto.
Qed.

Lemma filter_filter_andb {A : Type} (p q : A -> bool) (l : list A) :
  filter q (filter p l) = filter (fun a => p a && q a) l.
Proof.
  induction l as [|a t IH]; simpl; [reflexivity|].
  destruct (p a); simpl; [|exact IH].
  destruct (q a); [f_equal|]; exact IH.
Qed.

Lemma same_key_probation (d : date) (e : EmployeeRecord) (pe : date) :
  probation_end e = Some pe ->
  same_key Z.ltb probation_key d e = has_probation_end d e.
Proof.
  intros H. unfold same_key, has_probation_end, probation_key. rewrite H.
  lia.
Qed.

(** C7. Whenever the call returns, the result ascends by [probation_end],
    and for every date the records of the result that end probation on it
    are the records of the roster that are active, in the window and end
    probation on that date, in the order the roster has them. *)
Theorem upcoming_probation_end_stable (today : date)
        (self : EmployeeRoster) (within_days : Z)
        (reference_date : option date) (results : list EmployeeRecord) :
  let rd := or_today today reference_date in
  upcoming_probation_end today self within_days reference_date = Ok results ->
  StronglySorted probation_le results
  /\ (forall d,
      filter (has_probation_end d) results
      = filter (fun e => is_active e
                         && in_window rd (rd + within_days) e
                         && has_probation_end d e)
               (_employees self)).
Proof.
  intros rd H. apply upcoming_probation_end_inv in H. fold rd in H.
  set (L := filter (in_window rd (rd + within_days)) (active self)) in *.
  assert (HL : forall e, In e L -> exists pe, probation_end e = Some pe).
  { intros e He. apply filter_In in He as [_ He].
    apply in_window_iff in He as [pe [Hpe _]]. eauto. }
  assert (HR : forall e, In e results -> exists pe, probation_end e = Some pe).
  { intros e He. apply HL. rewrite H in He. apply sorted_In in He. exact He. }
  split.
  - apply (StronglySorted_weaken (key_le Z.ltb probation_key) probation_le
             (fun e => exists pe, probation_end e = Some pe)).
    + intros a b [x Hx] [y Hy]. unfold key_le, probation_le, probation_key.
      rewrite Hx, Hy. lia.
    + apply Forall_forall. exact HR.
    + rewrite H. apply sorted_sorted; [apply Zltb_asym | apply Zleb_trans].
  - intros d.
    rewrite (filter_ext_in (has_probation_end d)
                           (same_key Z.ltb probation_key d) results).
    + rewrite H, (sorted_stable Z.ltb probation_key Zleb_trans d L).
      rewrite (filter_ext_in (same_key Z.ltb probation_key d)
                             (has_probation_end d) L).
      * unfold L, active. rewrite !filter_filter_andb.
        apply filter_ext. intros e. apply andb_assoc.
      * intros e He. destruct (HL e He) as [pe Hpe].
        apply (same_key_probation d e pe Hpe).
    + intros e He. destruct (HR e He) as [pe Hpe]. symmetry.
      apply (same_key_probation d e pe Hpe).
Qed.

Lemma upcoming_probation_end_ties :
  upcoming_probation_end 1 roster_ties 60 (Some (ymd 2016 8 1))
  = Ok [emp_F; emp_A; emp_E]
  /\ StronglySorted probation_le [emp_F; emp_A; emp_E]
  /\ filter (has_probation_end (ymd 2016 9 1)) [emp_F; emp_A; emp_E]
     = [emp_A; emp_E].
Proof.
  split; [reflexivity|].
  destruct (upcoming_probation_end_stable
              1 roster_ties 60 (Some (ymd 2016 8 1)) [emp_F; emp_A; emp_E]
              eq_refl) as (Hs & Hf).
  split; [exact Hs | exact (Hf (ymd 2016 9 1))].
Defined.




(* ================================================================= *)
(** * The month formatters *)

Lemma py_round_cases (x : Q) :
  (py_round x = Qfloor x /\ (x - inject_Z (Qfloor x) <= 1 # 2)%Q)
  \/ (py_round x = Qfloor x + 1 /\ (1 # 2 <= x - inject_Z (Qfloor x))%Q).
Proof.
  unfold py_round.
  destruct (Qcompare_spec (x - inject_Z (Qfloor x)) (1 # 2)) as [H | H | H].
  - destruct (Z.even (Qfloor x)); [left | right]; split; try reflexivity;
      rewrite H; apply Qle_refl.
  - left. split; [reflexivity | apply Qlt_le_weak; exact H].
  - right. split; [reflexivity | apply Qlt_le_weak; exact H].
Qed.

Lemma py_round_nonneg (x : Q) : (0 <= x)%Q -> 0 <= py_round x.
Proof.
  intros H. assert (0 <= Qfloor x).
  { change 0 with (Qfloor 0). apply Qfloor_resp_le. exact H. }
  destruct (py_round_cases x) as [[-> _] | [-> _]]; lia.
Qed.

Lemma py_round_Z (n : Z) : py_round (inject_Z n) = n.
Proof.
  destruct (py_round_cases (inject_Z n)) as [[-> _] | [_ H]].
  - apply Qfloor_Z.
  - rewrite Qfloor_Z in H. lra.
Qed.

Lemma py_round_nearest (x : Q) :
  (Qabs (x - inject_Z (py_round x)) <= 1 # 2)%Q.
Proof.
  apply Qabs_Qle_condition.
  pose proof (Qfloor_le x) as Hlo. pose proof (Qlt_floor x) as Hhi.
  rewrite inject_Z_plus in Hhi. change (inject_Z 1) with 1%Q in Hhi.
  destruct (py_round_cases x) as [[-> H] | [-> H]].
  - split; lra.
  - rewrite inject_Z_plus. change (inject_Z 1) with 1%Q. split; lra.
Qed.

Lemma is_integer_iff (x : Q) :
  is_integer x = true <-> exists n, (x == inject_Z n)%Q.
Proof.
  unfold is_integer. rewrite Qeq_bool_iff. split.
  - intros H. exists (Qfloor x). symmetry. exact H.
  - intros [n H]. rewrite H at 1. rewrite Qfloor_Z. symmetry. exact H.
Qed.

Lemma py_round_integer_test (x : Q) :
  Qeq_bool (inject_Z (py_round x)) x = is_integer x.
Proof.
  apply eq_true_iff_eq. rewrite is_integer_iff, Qeq_bool_iff. split.
  - intros H. exists (py_round x). symmetry. exact H.
  - intros [n H].
    assert (Hf : Qfloor x = n) by (rewrite H; apply Qfloor_Z).
    destruct (py_round_cases x) as [[-> _] | [_ H2]]; rewrite Hf in *; lra.
Qed.

Lemma int_truthy_pos (n : Z) : 0 <= n -> int_truthy n = (0 <? n).
Proof. unfold int_truthy. lia. Qed.

Lemma format_months_shown (n : Z) :
  0 <= n -> _format_months (Some n) = months_shown (n / 12) (n mod 12) [].
Proof.
  intros Hn. unfold _format_months, months_shown.
  assert (Hy : 0 <= n / 12) by (apply Z.div_pos; lia).
  assert (Hr : 0 <= n mod 12 < 12) by (apply Z.mod_pos_bound; lia).
  rewrite !int_truthy_pos by lia.
  destruct (0 <? n / 12) eqn:Ey; destruct (0 <? n mod 12) eqn:Er; simpl;
    rewrite ?app_nil_r, <- ?app_assoc; try reflexivity.
  replace (n mod 12) with 0 by lia. reflexivity.
Qed.

Lemma describe_months_shown (x : Q) :
  (0 <= x)%Q ->
  _describe_months (Some x)
  = months_shown (py_round x / 12) (py_round x mod 12) (approx_part x).
Proof.
  intros Hx. pose proof (py_round_nonneg x Hx) as Hm.
  unfold _describe_months, months_shown, approx_part.
  rewrite py_round_integer_test.
  set (m := py_round x) in *.
  assert (Hy : 0 <= m / 12) by (apply Z.div_pos; lia).
  assert (Hr : 0 <= m mod 12 < 12) by (apply Z.mod_pos_bound; lia).
  rewrite !int_truthy_pos by lia.
  destruct (0 <? m / 12); destruct (0 <? m mod 12);
    destruct (is_integer x); reflexivity.
Qed.

Lemma describe_months_integer (n : Z) :
  _describe_months (Some (inject_Z n)) = _format_months (Some n).
Proof.
  unfold _describe_months, _format_months.
  rewrite py_round_Z.
  replace (Qeq_bool (inject_Z n) (inject_Z n)) with true
    by (symmetry; apply Qeq_bool_iff; reflexivity).
  destruct (int_truthy (n / 12)); destruct (int_truthy (n mod 12)) eqn:Er;
    simpl; rewrite <- ?app_assoc; try reflexivity.
  unfold int_truthy in Er. replace (n mod 12) with 0 by lia. reflexivity.
Qed.

Lemma spec_months_display_Z (n : Z) :
  spec_months_display (inject_Z n) = months_shown (n / 12) (n mod 12) [].
Proof.
  unfold spec_months_display.
  assert (Hy : Qfloor (inject_Z n / 12) = n / 12).
  { unfold Qfloor, Qdiv, Qmult, Qinv, inject_Z. simpl.
    rewrite Z.mul_1_r. reflexivity. }
  rewrite Hy.
  assert (Hr : Qfloor (inject_Z n - 12 * inject_Z (n / 12)) = n mod 12).
  { assert (E : (inject_Z n - 12 * inject_Z (n / 12)
                 == inject_Z (n mod 12))%Q).
    { rewrite Z.mod_eq by lia. unfold Qeq, Qminus, Qplus, Qmult, Qopp.
      simpl. lia. }
    rewrite E. apply Qfloor_Z. }
  rewrite Hr.
  assert (Ha : approx_part (inject_Z n) = []).
  { unfold approx_part.
    replace (is_integer (inject_Z n)) with true; [reflexivity|].
    symmetry. apply is_integer_iff. exists n. reflexivity. }
  rewrite Ha. reflexivity.
Qed.

(** C3, as the code has it. For a month count that is not negative:
    [_format_months] shows an integer count as the specification words it,
    years the floor of n/12 and months n mod 12; [_describe_months] first
    rounds its value to the nearest integer (ties to even) and shows the
    years and months of the rounded value; a component shows when it is
    positive, "0개월" when neither does; the approximation follows exactly
    when the value is no integer; on integers the two agree. *)
Theorem months_display_rule :
  (forall n : Z, 0 <= n ->
     _format_months (Some n) = spec_months_display (inject_Z n)
     /\ _format_months (Some n) = months_shown (n / 12) (n mod 12) [])
  /\ (forall x : Q, (0 <= x)%Q ->
      _describe_months (Some x)
      = months_shown (py_round x / 12) (py_round x mod 12) (approx_part x))
  /\ (forall n : Z, _describe_months (Some (inject_Z n))
                    = _format_months (Some n))
  /\ (forall x : Q, (Qabs (x - inject_Z (py_round x)) <= 1 # 2)%Q)
  /\ (forall x : Q, approx_part x = [] <-> exists n, (x == inject_Z n)%Q).
Proof.
  split; [|split; [|split; [|split]]].
  - intros n Hn. rewrite spec_months_display_Z.
    split; apply format_months_shown; exact Hn.
  - exact describe_months_shown.
  - exact describe_months_integer.
  - exact py_round_nearest.
  - intros x. rewrite <- is_integer_iff. unfold approx_part.
    destruct (is_integer x); split; congruence.
Qed.

Lemma months_display_rule_at_14_and_12_5 :
  0 <= 14
  /\ _format_months (Some 14) = months_shown 1 2 []
  /\ (0 <= 25 # 2)%Q
  /\ _describe_months (Some (25 # 2))
     = months_shown 1 0 (approx_part (25 # 2)).
Proof.
  destruct months_display_rule as (H1 & H2 & _).
  assert (P14 : 0 <= 14) by lia.
  assert (Q12 : (0 <= 25 # 2)%Q) by (unfold Qle; simpl; lia).
  split; [exact P14|]. split; [exact (proj2 (H1 14 P14))|].
  split; [exact Q12 | exact (H2 (25 # 2) Q12)].
Defined.

Example months_display_examples :
  _format_months (Some 14) = u8 "1년 2개월"
  /\ _format_months (Some 12) = u8 "1년"
  /\ _format_months (Some 5) = u8 "5개월"
  /\ _format_months (Some 0) = u8 "0개월"
  /\ _format_months None = u8 "-"
  /\ _describe_months (Some 12%Q) = u8 "1년"
  /\ _describe_months (Some (25 # 2)) = u8 "1년 (약 12.5개월)"
  /\ _describe_months None = u8 "-".
Proof. repeat split. Qed.

(** The average tenure 11.5 of the example roster is shown as one year,
    where the floor of 11.5/12 is no year and eleven months; a negative
    count shows a negative year. *)
Lemma describe_months_rounds_half_up :
  average_tenure_months roster_example true = Ok (Some (23 # 2))
  /\ describe_average_tenure roster_example = Ok (u8 "1년 (약 11.5개월)")
  /\ _describe_months (Some (23 # 2)) = u8 "1년 (약 11.5개월)"
  /\ spec_months_display (23 # 2) = u8 "11개월 (약 11.5개월)"
  /\ Qfloor ((23 # 2) / 12) = 0
  /\ _format_months (Some (-1)) = u8 "-1년 11개월".
Proof. repeat split. Qed.

(* ================================================================= *)
(** * EmployeeRoster.average_tenure_months *)



Example average_tenure_months_examples :
  average_tenure_months roster_example true = Ok (Some (23 # 2))
  /\ average_tenure_months
       {| _employees := [emp_C; emp_D] |} true = Ok None
  /\ average_tenure_months
       {| _employees := [emp_C; emp_D] |} false = Ok (Some 5%Q)
  /\ average_tenure_months {| _employees := [] |} false = Ok None.
Proof. repeat split. Qed.

(* ================================================================= *)
(** * Loading: the parsers, from_row and from_csv *)

Lemma lstrip_split (s : str) :
  exists ws, s = ws ++ lstrip s /\ forallb py_isspace ws = true.
Proof.
  induction s as [|c t [ws [Hs Hw]]]; simpl.
  - exists []. split; reflexivity.
  - destruct (py_isspace c) eqn:E.
    + exists (c :: ws). simpl. rewrite E, Hw. split; [f_equal; exact Hs|reflexivity].
    + exists []. split; reflexivity.
Qed.

Lemma rstrip_split (s : str) :
  exists ws, s = rstrip s ++ ws /\ forallb py_isspace ws = true.
Proof.
  destruct (lstrip_split (rev s)) as [ws [Hs Hw]].
  exists (rev ws). unfold rstrip. split.
  - rewrite <- rev_app_distr, <- Hs, rev_involutive. reflexivity.
  - rewrite forallb_rev. exact Hw.
Qed.

(** Stripping removes a run of whitespace at each end and nothing else. *)
Lemma strip_split (s : str) :
  exists w1 w2, s = w1 ++ strip s ++ w2
                /\ forallb py_isspace w1 = true
                /\ forallb py_isspace w2 = true.
Proof.
  destruct (lstrip_split s) as [w1 [H1 Hw1]].
  destruct (rstrip_split (lstrip s)) as [w2 [H2 Hw2]].
  exists w1, w2. unfold strip. rewrite <- H2, <- H1. auto.
Qed.

Lemma rstrip_keeps (l : str) (c : N) (r : str) :
  py_isspace c = false -> rstrip (l ++ c :: r) = l ++ c :: rstrip r.
Proof.
  intros Hc. unfold rstrip.
  replace (rev (l ++ c :: r)) with (rev r ++ c :: rev l)
    by (rewrite rev_app_distr; simpl; rewrite <- app_assoc; reflexivity).
  rewrite lstrip_keeps by exact Hc.
  rewrite rev_app_distr. simpl. rewrite rev_involutive, <- app_assoc.
  reflexivity.
Qed.

Lemma contains_app (sub pre s post : str) :
  contains sub s = true -> contains sub (pre ++ s ++ post) = true.
Proof.
  rewrite !contains_substring. intros [a [b ->]].
  exists (pre ++ a), (b ++ post). rewrite <- !app_assoc. reflexivity.
Qed.

(** A text that neither starts nor ends with whitespace is found in the
    stripped string exactly when it is found in the string. *)
Lemma contains_strip (a : N) (mid : str) (z : N) (s : str) :
  py_isspace a = false /\ py_isspace z = false ->
  contains (a :: mid ++ [z]) (strip s) = contains (a :: mid ++ [z]) s.
Proof.
  intros [Ha Hz]. apply eq_true_iff_eq. split.
  - intros H. destruct (strip_split s) as [w1 [w2 [Hs _]]].
    rewrite Hs. apply contains_app. exact H.
  - rewrite !contains_substring. intros [pre [post ->]].
    unfold strip. simpl app at 2.
    rewrite (lstrip_keeps pre a ((mid ++ [z]) ++ post) Ha).
    rewrite <- app_assoc. simpl app at 3.
    replace (lstrip pre ++ a :: mid ++ z :: post)
      with ((lstrip pre ++ a :: mid) ++ z :: post)
      by (rewrite <- app_assoc; reflexivity).
    rewrite (rstrip_keeps _ z post Hz).
    exists (lstrip pre), (rstrip post).
    rewrite <- !app_assoc. simpl. rewrite <- app_assoc. reflexivity.
Qed.


Section ParserFacts.

Variable strptime_ymd : str -> option date.
Variable int_of_str : str -> option Z.

Lemma parse_date_none_iff (value : str) :
  _parse_date strptime_ymd value = Loaded None
  <-> forallb py_isspace value = true.
Proof.
  unfold _parse_date. rewrite <- strip_nil.
  destruct (strip value) as [|c t]; [tauto|].
  destruct (strptime_ymd (c :: t)); split; discriminate.
Qed.

(** X1. [_parse_date] gives no date exactly for a blank cell, the
    whitespace around a value does not matter, and the one failure is the
    [ValueError] of the conversion on the stripped text. *)
Theorem parse_date_blank (value : str) :
  (_parse_date strptime_ymd value = Loaded None
   <-> forallb py_isspace value = true)
  /\ _parse_date strptime_ymd (strip value) = _parse_date strptime_ymd value
  /\ (forall e, _parse_date strptime_ymd value = LoadError e ->
                e = ValueError (strip value)
                /\ strptime_ymd (strip value) = None)
  /\ (forall d, _parse_date strptime_ymd value = Loaded (Some d) ->
                strptime_ymd (strip value) = Some d).
Proof.
  unfold _parse_date. rewrite strip_idem, <- strip_nil.
  destruct (strip value) as [|c t] eqn:E.
  - repeat split; intros; try discriminate; reflexivity.
  - destruct (strptime_ymd (c :: t)) as [d|] eqn:P;
      repeat split; intros; try discriminate; try congruence.
Qed.

(** X2. [_parse_int] gives no number exactly for a blank cell, the
    whitespace around a value does not matter, and the one failure is the
    [ValueError] of the conversion on the stripped text. *)
Theorem parse_int_blank (value : str) :
  (_parse_int int_of_str value = Loaded None
   <-> forallb py_isspace value = true)
  /\ _parse_int int_of_str (strip value) = _parse_int int_of_str value
  /\ (forall e, _parse_int int_of_str value = LoadError e ->
                e = ValueError (strip value)
                /\ int_of_str (strip value) = None)
  /\ (forall n, _parse_int int_of_str value = Loaded (Some n) ->
                int_of_str (strip value) = Some n).
Proof.
  unfold _parse_int. rewrite strip_idem, <- strip_nil.
  destruct (strip value) as [|c t] eqn:E.
  - repeat split; intros; try discriminate; reflexivity.
  - destruct (int_of_str (c :: t)) as [n|] eqn:P;
      repeat split; intros; try discriminate; try congruence.
Qed.

Lemma from_row_loads (row : dict str) (r : EmployeeRecord) :
  from_row strptime_ymd int_of_str row = Loaded r <->
  row_loads strptime_ymd int_of_str row r.
Proof.
  split.
  - unfold from_row.
    repeat match goal with
           | |- load_bind ?m _ = Loaded _ -> _ =>
               destruct m eqn:?; cbn [load_bind]; [|discriminate]
           end.
    intros [= <-]. unfold row_loads. cbn [employee_id payroll_id name gender birthdate age_group team part title start_date probation_end resignation_date tenure_text prior_experience_text total_experience_text contract_type phone email work_location job_type employment_status employment_status_detail prior_experience_months current_experience_months total_experience_months].
    repeat split; assumption.
  - unfold row_loads, from_row. intros H.
    repeat match type of H with
           | _ = Loaded _ /\ _ =>
               let H1 := fresh "E" in
               destruct H as [H1 H]; rewrite H1; cbn [load_bind]
           end.
    rewrite H. cbn [load_bind]. destruct r. reflexivity.
Qed.


Lemma row_text_cell (row : dict str) (k v : str) :
  row_text row k = Loaded v ->
  exists cell, dict_lookup row k = Some cell /\ v = strip cell.
Proof.
  unfold row_text, row_get. destruct (dict_lookup row k) as [cell|];
    cbn [load_bind]; [|discriminate].
  intros [= <-]. exists cell. split; reflexivity.
Qed.


Lemma row_date_cell (row : dict str) (k : str) (v : option date) :
  row_date strptime_ymd row k = Loaded v ->
  exists cell, dict_lookup row k = Some cell
               /\ _parse_date strptime_ymd cell = Loaded v
               /\ cell_parses strptime_ymd cell = true.
Proof.
  unfold row_date, row_get. destruct (dict_lookup row k) as [cell|];
    cbn [load_bind]; [|discriminate].
  intros H. exists cell. split; [reflexivity|]. split; [exact H|].
  unfold _parse_date in H. unfold cell_parses.
  destruct (strip cell); [reflexivity|].
  destruct (strptime_ymd _); [reflexivity | discriminate].
Qed.






Lemma row_text_stripped (row : dict str) (k v : str) :
  row_text row k = Loaded v -> strip v = v.
Proof.
  intros H. apply row_text_cell in H as [cell [_ ->]]. apply strip_idem.
Qed.

(** X4. No text field of a loaded record starts or ends with whitespace. *)
Theorem from_row_text_stripped (row : dict str) (r : EmployeeRecord) :
  from_row strptime_ymd int_of_str row = Loaded r ->
  Forall (fun field => strip field = field) (text_fields r).
Proof.
  intros H. apply from_row_loads in H. unfold row_loads in H.
  repeat match type of H with
         | _ /\ _ => let H1 := fresh "E" in destruct H as [H1 H]
         end.
  unfold text_fields.
  repeat (apply Forall_cons || apply Forall_nil);
    eapply row_text_stripped; eassumption.
Qed.

(** X5. A loaded record is active exactly when the resignation cell of its
    row is blank and the status cell contains "재직". *)
Theorem from_row_active (row : dict str) (r : EmployeeRecord)
        (resignation status : str) :
  from_row strptime_ymd int_of_str row = Loaded r ->
  dict_lookup row (u8 "resignation_date") = Some resignation ->
  dict_lookup row (u8 "employment_status") = Some status ->
  (is_active r = true <->
   forallb py_isspace resignation = true
   /\ contains lit_employed status = true).
Proof.
  intros H Hr Hs. apply from_row_loads in H. unfold row_loads in H.
  destruct H as (_ & _ & _ & _ & _ & _ & _ & _ & _ & _ & _ & Hres & _ & _
                 & _ & _ & _ & _ & _ & _ & Hst & _).
  apply row_date_cell in Hres as [rc [Hrc [Hres _]]].
  apply row_text_cell in Hst as [sc [Hsc Hst]].
  rewrite Hr in Hrc. injection Hrc as <-.
  rewrite Hs in Hsc. injection Hsc as <-.
  unfold is_active. rewrite Hst.
  pose proof (contains_strip 51116%N [] 51649%N status
                             (conj eq_refl eq_refl)) as Hstrip.
  change (51116%N :: [] ++ [51649%N]) with lit_employed in Hstrip.
  rewrite Hstrip.
  destruct (resignation_date r) as [d|] eqn:E.
  - split; [discriminate|]. intros [Hb _].
    apply (parse_date_none_iff resignation) in Hb. congruence.
  - split; [|tauto]. intros Hc. split; [|exact Hc].
    apply (parse_date_none_iff resignation). exact Hres.
Qed.

Lemma load_rows_loaded (reader : list (dict str))
      (employees : list EmployeeRecord) :
  load_rows strptime_ymd int_of_str reader = Loaded employees ->
  Forall2 (fun row e => from_row strptime_ymd int_of_str row = Loaded e)
          reader employees.
Proof.
  revert employees; induction reader as [|row rest IH]; intros employees;
    simpl.
  - intros [= <-]. constructor.
  - destruct (from_row strptime_ymd int_of_str row) as [e|] eqn:E;
      cbn [load_bind]; [|discriminate].
    destruct (load_rows strptime_ymd int_of_str rest) as [es|];
      cbn [load_bind]; [|discriminate].
    intros [= <-]. constructor; [exact E | apply IH; reflexivity].
Qed.

Lemma load_rows_failed (reader : list (dict str)) (err : load_exn) :
  load_rows strptime_ymd int_of_str reader = LoadError err ->
  exists pre row post,
    reader = pre ++ row :: post
    /\ Forall (fun r => exists x,
                   from_row strptime_ymd int_of_str r = Loaded x) pre
    /\ from_row strptime_ymd int_of_str row = LoadError err.
Proof.
  induction reader as [|row rest IH]; simpl; [discriminate|].
  destruct (from_row strptime_ymd int_of_str row) as [e|e'] eqn:E;
    cbn [load_bind].
  - destruct (load_rows strptime_ymd int_of_str rest) as [es|e''];
      cbn [load_bind]; [discriminate|].
    intros [= <-]. destruct (IH eq_refl) as (pre & r & post & -> & Hp & Hr).
    exists (row :: pre), r, post. repeat split; [|exact Hr].
    constructor; [exists e; exact E | exact Hp].
  - intros [= <-]. exists [], row, rest. repeat split; [constructor | exact E].
Qed.

Lemma load_rows_total (reader : list (dict str)) :
  Forall (fun row => exists e,
              from_row strptime_ymd int_of_str row = Loaded e) reader ->
  exists employees,
    load_rows strptime_ymd int_of_str reader = Loaded employees.
Proof.
  induction 1 as [|row rest [e He] _ [es Hes]]; simpl.
  - eexists. reflexivity.
  - rewrite He, Hes. eexists. reflexivity.
Qed.

(** X6. Loading is all or nothing and keeps the rows' order: a loaded
    roster has one record a row, the i-th record being the i-th row as
    [from_row] loads it; a failed load reports the error of the first row
    that does not load; rows that all load give a roster. *)
Theorem from_csv_all_or_nothing (reader : list (dict str)) :
  (forall roster,
      from_csv strptime_ymd int_of_str reader = Loaded roster ->
      Forall2 (fun row e => from_row strptime_ymd int_of_str row = Loaded e)
              reader (_employees roster)
      /\ len roster = Z.of_nat (List.length reader))
  /\ (forall err,
      from_csv strptime_ymd int_of_str reader = LoadError err ->
      exists pre row post,
        reader = pre ++ row :: post
        /\ Forall (fun r => exists x,
                       from_row strptime_ymd int_of_str r = Loaded x) pre
        /\ from_row strptime_ymd int_of_str row = LoadError err)
  /\ (Forall (fun row => exists e,
                  from_row strptime_ymd int_of_str row = Loaded e) reader ->
      exists roster, from_csv strptime_ymd int_of_str reader = Loaded roster).
Proof.
  unfold from_csv. split; [|split].
  - intros roster.
    destruct (load_rows strptime_ymd int_of_str reader) as [es|] eqn:E;
      cbn [load_bind]; [|discriminate].
    intros [= <-]. pose proof (load_rows_loaded reader es E) as H.
    split; [exact H|]. unfold len. simpl.
    rewrite (Forall2_length H). reflexivity.
  - intros err.
    destruct (load_rows strptime_ymd int_of_str reader) as [es|e] eqn:E;
      cbn [load_bind]; [discriminate|].
    intros [= <-]. apply load_rows_failed. exact E.
  - intros H. destruct (load_rows_total reader H) as [es ->].
    eexists. reflexivity.
Qed.

End ParserFacts.


Lemma from_row_text_stripped_example :
  Forall (fun field => strip field = field) (text_fields record_example).
Proof.
  apply (from_row_text_stripped strptime_example int_example row_example).
  reflexivity.
Defined.

Lemma from_row_active_example :
  is_active record_example = true <->
  forallb py_isspace (u8 "  ") = true
  /\ contains lit_employed (u8 "재직") = true.
Proof.
  apply (from_row_active strptime_example int_example row_example
                         record_example (u8 "  ") (u8 "재직"));
    reflexivity.
Defined.

Example from_row_missing_column :
  from_row strptime_example int_example (tl row_example)
  = LoadError (KeyError (u8 "employee_id")).
Proof. reflexivity. Qed.

Example from_csv_example :
  from_csv strptime_example int_example [row_example; row_example]
  = Loaded {| _employees := [record_example; record_example] |}
  /\ from_csv strptime_example int_example [row_example; tl row_example]
     = LoadError (KeyError (u8 "employee_id")).
Proof. split; reflexivity. Qed.


(* ================================================================= *)
(** * The display methods and the empty keyword *)

Lemma format_months_nonempty (months : option Z) : _format_months months <> [].
Proof.
  unfold _format_months. destruct months as [m|]; [|discriminate].
  destruct (int_truthy (m / 12) && int_truthy (m mod 12));
    [|destruct (int_truthy (m / 12))];
    intros H; apply app_eq_nil in H as [_ H];
    try (apply app_eq_nil in H as [H _]); discriminate.
Qed.

Lemma str_or_nonempty (a b : str) : b <> [] -> str_or a b <> [].
Proof. destruct a; simpl; [auto | discriminate]. Qed.

(** X7. The tenure and experience displays are never empty, and so no
    cell of a table row after the identifier and the name is. *)
Theorem display_never_empty (self : EmployeeRecord) :
  tenure_display self <> []
  /\ total_experience_display self <> []
  /\ Forall (fun cell => cell <> []) (skipn 2 (table_row self)).
Proof.
  assert (Ht : tenure_display self <> []).
  { unfold tenure_display. destruct (tenure_months self).
    - apply format_months_nonempty.
    - apply str_or_nonempty. discriminate. }
  assert (Hx : total_experience_display self <> []).
  { unfold total_experience_display.
    destruct (total_experience_months self).
    - apply format_months_nonempty.
    - apply str_or_nonempty. discriminate. }
  split; [exact Ht|]. split; [exact Hx|].
  simpl. repeat constructor; try assumption;
    apply str_or_nonempty; discriminate.
Qed.

(** X8. When lowering the empty string gives the empty string, the empty
    keyword matches every record, so filtering by [matches] alone would
    keep the whole roster; [search] returns nothing for it. *)
Theorem matches_empty_keyword (lower : str -> str) (self : EmployeeRoster) :
  lower [] = [] ->
  (forall e, matches lower e [] = true)
  /\ filter (fun e => matches lower e []) (_employees self) = _employees self
  /\ search lower self [] = [].
Proof.
  intros Hl.
  assert (Hm : forall e, matches lower e [] = true).
  { intros e. unfold matches. rewrite Hl. destruct (lower (name e)); reflexivity. }
  split; [exact Hm|]. split; [|reflexivity].
  apply forallb_filter_id. apply forallb_forall. intros e _. apply Hm.
Qed.

Lemma matches_empty_keyword_example :
  (forall e, matches lower_ascii e [] = true)
  /\ filter (fun e => matches lower_ascii e []) (_employees roster_example)
     = _employees roster_example
  /\ search lower_ascii roster_example [] = [].
Proof.
  apply (matches_empty_keyword lower_ascii roster_example). reflexivity.
Defined.

(* ================================================================= *)
(** * The probation countdown *)

Lemma upcoming_results_dated (today : date) (self : EmployeeRoster)
      (within_days : Z) (reference_date : option date)
      (results : list EmployeeRecord) :
  upcoming_probation_end today self within_days reference_date = Ok results ->
  Forall (fun e => exists pe,
              probation_end e = Some pe
              /\ or_today today reference_date <= pe
                 <= or_today today reference_date + within_days)
         results
  /\ StronglySorted (key_le Z.ltb probation_key) results.
Proof.
  intros H. apply upcoming_probation_end_inv in H. subst results. split.
  - apply Forall_forall. intros e He. apply sorted_In in He.
    apply filter_In in He as [_ He]. apply in_window_iff. exact He.
  - apply sorted_sorted; [apply Zltb_asym | apply Zleb_trans].
Qed.




(* ================================================================= *)
(** * Sorting and filtering *)

Lemma StronglySorted_filter {A : Type} (R : A -> A -> Prop) (p : A -> bool)
      (l : list A) :
  StronglySorted R l -> StronglySorted R (filter p l).
Proof.
  induction 1 as [|a t Ht IH Ha]; simpl; [constructor|].
  destruct (p a); [|exact IH].
  constructor; [exact IH|].
  rewrite Forall_forall in *. intros b Hb.
  apply filter_In in Hb as [Hb _]. auto.
Qed.

Lemma filter_comm {A : Type} (p q : A -> bool) (l : list A) :
  filter p (filter q l) = filter q (filter p l).
Proof.
  rewrite !filter_filter_andb. apply filter_ext. intros a. apply andb_comm.
Qed.

Section SortFilterFacts.

Context {A K : Type}.
Variable ltb : K -> K -> bool.
Variable key : A -> K.

Hypothesis ltb_asym : forall a b, ltb a b = true -> ltb b a = false.
Hypothesis leb_trans :
  forall a b c, ltb b a = false -> ltb c b = false -> ltb c a = false.

(** Selecting before or after the stable sort gives the same list. *)
Lemma sorted_filter_comm (p : A -> bool) (l : list A) :
  filter p (sorted ltb key l) = sorted ltb key (filter p l).
Proof.
  apply (sorted_unique ltb key ltb_asym leb_trans).
  - apply StronglySorted_filter.
    apply (sorted_sorted ltb key ltb_asym leb_trans).
  - intros k. rewrite filter_comm.
    rewrite (sorted_stable ltb key leb_trans). apply filter_comm.
Qed.

End SortFilterFacts.

Lemma filter_none {A : Type} (p : A -> bool) (l : list A) :
  (forall a, In a l -> p a = false) -> filter p l = [].
Proof.
  induction l as [|a t IH]; simpl; intros H; [reflexivity|].
  rewrite (H a (or_introl eq_refl)). apply IH. intros b Hb. apply H.
  right. exact Hb.
Qed.

(** An ascending list is its part up to a bound followed by the rest. *)
Lemma sorted_split_at (key : EmployeeRecord -> Z) (bound : Z)
      (l : list EmployeeRecord) :
  StronglySorted (key_le Z.ltb key) l ->
  l = filter (fun e => key e <=? bound) l
      ++ filter (fun e => bound <? key e) l.
Proof.
  induction 1 as [|a t Ht IH Ha]; simpl; [reflexivity|].
  destruct (key a <=? bound) eqn:E.
  - replace (bound <? key a) with false by lia. simpl. f_equal. exact IH.
  - replace (bound <? key a) with true by lia.
    rewrite Forall_forall in Ha. unfold key_le in Ha.
    rewrite (filter_none (fun e => key e <=? bound) t).
    + simpl. f_equal. symmetry. apply forallb_filter_id.
      apply forallb_forall. intros b Hb. specialize (Ha b Hb). lia.
    + intros b Hb. specialize (Ha b Hb). lia.
Qed.

(** X10. Widening the window only adds later dates: with the same
    reference date, the result for a shorter span opens the result for a
    longer one, and what follows ends probation after the shorter
    window. *)
Theorem upcoming_probation_end_widening (today : date)
        (self : EmployeeRoster) (shorter longer : Z)
        (reference_date : option date) (first all : list EmployeeRecord) :
  shorter <= longer ->
  upcoming_probation_end today self shorter reference_date = Ok first ->
  upcoming_probation_end today self longer reference_date = Ok all ->
  exists later,
    all = first ++ later
    /\ Forall (fun e => exists pe,
                   probation_end e = Some pe
                   /\ or_today today reference_date + shorter < pe)
              later.
Proof.
  intros Hle H1 H2.
  destruct (upcoming_results_dated _ _ _ _ _ H2) as [Hd Hs].
  apply upcoming_probation_end_inv in H1, H2.
  set (rd := or_today today reference_date) in *.
  assert (Hf : first = filter (fun e => probation_key e <=? rd + shorter) all).
  { rewrite H1, H2.
    rewrite (sorted_filter_comm Z.ltb probation_key Zltb_asym Zleb_trans).
    f_equal. rewrite filter_filter_andb. apply filter_ext. intros e.
    unfold in_window, probation_key.
    destruct (probation_end e) as [pe|]; [lia | reflexivity]. }
  exists (filter (fun e => rd + shorter <? probation_key e) all). split.
  - rewrite Hf. apply sorted_split_at. exact Hs.
  - apply Forall_forall. intros e He. apply filter_In in He as [He Hk].
    rewrite Forall_forall in Hd. destruct (Hd e He) as [pe [Hpe _]].
    exists pe. split; [exact Hpe|].
    unfold probation_key in Hk. rewrite Hpe in Hk. lia.
Qed.

Lemma upcoming_probation_end_widening_example :
  exists later,
    [emp_F; emp_A; emp_E] = [emp_F] ++ later
    /\ Forall (fun e => exists pe,
                   probation_end e = Some pe /\ ymd 2016 8 1 + 10 < pe)
              later.
Proof.
  apply (upcoming_probation_end_widening
           1 roster_ties 10 60 (Some (ymd 2016 8 1)) [emp_F]
           [emp_F; emp_A; emp_E]);
    [vm_compute; discriminate | reflexivity | reflexivity].
Defined.


(* ================================================================= *)
(** * More on the summaries and the average *)

Lemma count_key_positive (key : EmployeeRecord -> str) (k : str)
      (l : list EmployeeRecord) :
  (exists e, In e l /\ key e = k) -> 1 <= count_key key k l.
Proof.
  intros [e [He Hk]]. unfold count_key.
  assert (Hin : In e (filter (fun e' => str_eqb (key e') k) l)).
  { apply filter_In. split; [exact He|]. apply str_eqb_eq. exact Hk. }
  destruct (filter _ l); [contradiction | simpl List.length; lia].
Qed.

Lemma summary_items (key : EmployeeRecord -> str) (l : list EmployeeRecord)
      (k : str) (v : Z) :
  In (k, v) (dict_of_items (sorted str_ltb fst (tally key l))) ->
  v = count_key key k l /\ 1 <= v /\ exists e, In e l /\ key e = k.
Proof.
  destruct (summary_facts key l) as (_ & Hget & Hkeys & Hnd & _).
  cbv zeta in *. intros Hin.
  assert (Hk : exists e, In e l /\ key e = k).
  { apply Hkeys. apply (in_map fst) in Hin. exact Hin. }
  assert (Hv : v = count_key key k l).
  { rewrite <- Hget. symmetry. apply dict_get_In; assumption. }
  split; [exact Hv|]. split; [|exact Hk].
  rewrite Hv. apply count_key_positive. exact Hk.
Qed.

Lemma summary_nil (key : EmployeeRecord -> str) (l : list EmployeeRecord) :
  dict_of_items (sorted str_ltb fst (tally key l)) = [] <-> l = [].
Proof.
  destruct (summary_facts key l) as (_ & _ & Hkeys & _). cbv zeta in *.
  split.
  - intros H. destruct l as [|e t]; [reflexivity|].
    assert (Hin : In (key e) (keys (@nil (str * Z)))).
    { rewrite <- H. apply Hkeys. exists e. split; [left|]; reflexivity. }
    contradiction.
  - intros ->. reflexivity.
Qed.

(** X11. Neither summary lists a key nobody falls under: every count is
    at least 1 and is the number of records under its key, no key is the
    empty string, and a summary is empty exactly when its population is. *)
Theorem summary_counts_positive (self : EmployeeRoster) :
  Forall (fun kv => 1 <= snd kv
                    /\ snd kv = count_key team_key (fst kv) (active self)
                    /\ fst kv <> [])
         (summary_by_team self)
  /\ Forall (fun kv => 1 <= snd kv
                       /\ snd kv
                          = count_key status_key (fst kv) (_employees self)
                       /\ fst kv <> [])
            (summary_by_status self)
  /\ (summary_by_team self = [] <-> active self = [])
  /\ (summary_by_status self = [] <-> _employees self = []).
Proof.
  unfold summary_by_team, summary_by_status.
  split; [|split; [|split]]; try apply summary_nil;
    apply Forall_forall; intros [k v] Hin;
    apply summary_items in Hin as (Hv & H1 & e & _ & Hk); simpl;
    (split; [exact H1|]; split; [exact Hv|]);
    rewrite <- Hk; apply str_or_nonempty; discriminate.
Qed.

Lemma filter_perm {A : Type} (p : A -> bool) (l l' : list A) :
  Permutation l l' -> Permutation (filter p l) (filter p l').
Proof.
  induction 1 as [| x l l' _ IH | x y l | l l' l'' _ IH1 _ IH2]; simpl.
  - constructor.
  - destruct (p x); [constructor|]; exact IH.
  - destruct (p x), (p y); try reflexivity. constructor.
  - etransitivity; eassumption.
Qed.

Lemma count_key_perm (key : EmployeeRecord -> str) (k : str)
      (l l' : list EmployeeRecord) :
  Permutation l l' -> count_key key k l = count_key key k l'.
Proof.
  intros H. unfold count_key. f_equal. apply Permutation_length.
  apply filter_perm. exact H.
Qed.

(** Two dictionaries with strictly ascending keys that have the same keys
    and the same values under them are the same list of items. *)
Lemma sorted_dict_ext (d1 d2 : dict Z) :
  StronglySorted (fun a b => str_ltb a b = true) (keys d1) ->
  StronglySorted (fun a b => str_ltb a b = true) (keys d2) ->
  (forall k, In k (keys d1) <-> In k (keys d2)) ->
  (forall k, In k (keys d1) -> dict_get d1 k 0 = dict_get d2 k 0) ->
  d1 = d2.
Proof.
  assert (Hlt : forall k (d : dict Z),
             StronglySorted (fun a b => str_ltb a b = true) (k :: keys d) ->
             ~ In k (keys d)).
  { intros k d H Hin. inversion H as [|? ? _ Hf]; subst.
    rewrite Forall_forall in Hf. specialize (Hf k Hin).
    rewrite (str_ltb_asym k k Hf) in Hf. discriminate. }
  revert d2; induction d1 as [|[k1 v1] t1 IH]; intros [|[k2 v2] t2] S1 S2 Hk Hg.
  - reflexivity.
  - exfalso. apply (Hk k2). left. reflexivity.
  - exfalso. apply (Hk k1). left. reflexivity.
  - simpl in S1, S2.
    pose proof (Hlt k1 t1 S1) as N1. pose proof (Hlt k2 t2 S2) as N2.
    assert (Ek : k1 = k2).
    { destruct (proj1 (Hk k1) (or_introl eq_refl)) as [E | In1];
        [symmetry; exact E|].
      destruct (proj2 (Hk k2) (or_introl eq_refl)) as [E | In2];
        [exact E|].
      simpl in In1, In2. exfalso.
      inversion S1 as [|? ? _ F1]; inversion S2 as [|? ? _ F2]; subst.
      rewrite Forall_forall in F1, F2.
      specialize (F1 k2 In2). specialize (F2 k1 In1).
      rewrite (str_ltb_asym _ _ F1) in F2. discriminate. }
    subst k2.
    assert (Ev : v1 = v2).
    { specialize (Hg k1 (or_introl eq_refl)). simpl in Hg.
      rewrite str_eqb_refl in Hg. exact Hg. }
    subst v2. f_equal.
    inversion S1; inversion S2; subst.
    apply IH; try assumption.
    + intros k. split; intros Hin.
      * destruct (proj1 (Hk k) (or_intror Hin)) as [E | H]; [|exact H].
        simpl in E. subst k. contradiction.
      * destruct (proj2 (Hk k) (or_intror Hin)) as [E | H]; [|exact H].
        simpl in E. subst k. contradiction.
    + intros k Hin. specialize (Hg k (or_intror Hin)). simpl in Hg.
      destruct (str_eqb k1 k) eqn:E; [|exact Hg].
      apply str_eqb_eq in E. subst k. contradiction.
Qed.

Lemma summary_perm (key : EmployeeRecord -> str)
      (l l' : list EmployeeRecord) :
  Permutation l l' ->
  dict_of_items (sorted str_ltb fst (tally key l))
  = dict_of_items (sorted str_ltb fst (tally key l')).
Proof.
  intros Hp.
  destruct (summary_facts key l) as (_ & G1 & K1 & _ & S1).
  destruct (summary_facts key l') as (_ & G2 & K2 & _ & S2).
  cbv zeta in *. apply sorted_dict_ext; try assumption.
  - intros k. rewrite K1, K2. split; intros [e [He Hk]]; exists e;
      (split; [|exact Hk]).
    + eapply Permutation_in; eassumption.
    + eapply Permutation_in; [symmetry|]; eassumption.
  - intros k _. rewrite G1, G2. apply count_key_perm. exact Hp.
Qed.

(** X12. The summaries and the average do not depend on the order of the
    roster: two rosters with the same records in any order give the same
    dictionaries, item for item, and the same average. *)
Theorem summaries_order_independent (a b : EmployeeRoster) :
  Permutation (_employees a) (_employees b) ->
  summary_by_team a = summary_by_team b
  /\ summary_by_status a = summary_by_status b
  /\ (forall active_only,
         average_tenure_months a active_only
         = average_tenure_months b active_only).
Proof.
  intros Hp. split; [|split].
  - apply summary_perm. apply filter_perm. exact Hp.
  - apply summary_perm. exact Hp.
  - intros active_only. unfold average_tenure_months.
    set (pa := if active_only then active a else _employees a).
    set (pb := if active_only then active b else _employees b).
    assert (Hpop : Permutation pa pb).
    { unfold pa, pb. destruct active_only;
        [apply filter_perm|]; exact Hp. }
    assert (Ht : Permutation (tenures_of pa) (tenures_of pb)).
    { unfold tenures_of. apply Permutation_flat_map. exact Hpop. }
    rewrite (sum_Z_perm _ _ Ht).
    destruct (tenures_of pa) as [|x ta] eqn:Ea;
      destruct (tenures_of pb) as [|y tb] eqn:Eb.
    + reflexivity.
    + apply Permutation_nil in Ht. discriminate.
    + symmetry in Ht. apply Permutation_nil in Ht. discriminate.
    + rewrite (Permutation_length Ht). reflexivity.
Qed.

Lemma summaries_order_independent_example :
  summary_by_team {| _employees := [emp_C; emp_A; emp_D; emp_B] |}
  = summary_by_team roster_example
  /\ summary_by_status {| _employees := [emp_C; emp_A; emp_D; emp_B] |}
     = summary_by_status roster_example
  /\ (forall active_only,
         average_tenure_months
           {| _employees := [emp_C; emp_A; emp_D; emp_B] |} active_only
         = average_tenure_months roster_example active_only).
Proof.
  apply summaries_order_independent. simpl.
  apply Permutation_sym.
  apply (perm_trans (l' := [emp_A; emp_C; emp_B; emp_D])).
  - constructor. apply perm_swap.
  - apply (perm_trans (l' := [emp_C; emp_A; emp_B; emp_D])).
    + apply perm_swap.
    + do 2 constructor. apply perm_swap.
Defined.


(* ================================================================= *)
(** * EmployeeRoster.to_table *)

Section TableFacts.

Local Open Scope nat_scope.

Lemma nth_error_middle {A : Type} (pre : list A) (x : A) (post : list A) :
  nth_error (pre ++ x :: post) (List.length pre) = Some x.
Proof. induction pre as [|a pre IH]; simpl; [reflexivity | exact IH]. Qed.

Lemma list_set_middle {A : Type} (pre : list A) (x v : A) (post : list A) :
  list_set (pre ++ x :: post) (List.length pre) v = Some (pre ++ v :: post).
Proof.
  induction pre as [|a pre IH]; simpl; [reflexivity|]. rewrite IH. reflexivity.
Qed.

Lemma widen_row_from (cells : list str) (pre post : list nat) :
  List.length post = List.length cells ->
  fold_left
    (fun acc ic =>
       match acc with
       | None => None
       | Some w => widen_cell w (fst ic) (snd ic)
       end)
    (combine (seq (List.length pre) (List.length cells)) cells)
    (Some (pre ++ post))
  = Some (pre ++ grow post cells).
Proof.
  revert pre post; induction cells as [|c cells IH]; intros pre post Hlen.
  - destruct post; [|discriminate]. reflexivity.
  - destruct post as [|p post]; [discriminate|]. simpl in Hlen.
    simpl. unfold widen_cell at 2.
    rewrite nth_error_middle, list_set_middle.
    replace (pre ++ Nat.max p (List.length c) :: post)
      with ((pre ++ [Nat.max p (List.length c)]) ++ post)
      by (rewrite <- app_assoc; reflexivity).
    replace (S (List.length pre))
      with (List.length (pre ++ [Nat.max p (List.length c)]))
      by (rewrite length_app; simpl; lia).
    rewrite IH by lia. rewrite <- app_assoc. reflexivity.
Qed.

Lemma widen_row_grow (w : list nat) (row : list str) :
  List.length w = List.length row -> widen_row w row = Some (grow w row).
Proof.
  intros H. apply (widen_row_from row [] w H).
Qed.

Lemma grow_length (w : list nat) (row : list str) :
  List.length w = List.length row -> List.length (grow w row) = List.length w.
Proof.
  intros H. unfold grow. rewrite length_map, length_combine. lia.
Qed.

Lemma grow_spec (w : list nat) (row : list str) :
  List.length w = List.length row ->
  fits (grow w row) row /\ Forall2 le w (grow w row).
Proof.
  revert row; induction w as [|x w IH]; intros [|c row] H;
    try discriminate; simpl.
  - split; constructor.
  - injection H as H. destruct (IH row H) as [H1 H2].
    split; constructor; try assumption; simpl; lia.
Qed.

Lemma fits_mono (w w' : list nat) (row : list str) :
  fits w row -> Forall2 le w w' -> fits w' row.
Proof.
  unfold fits. intros Hf. revert w'.
  induction Hf as [|x c w row Hx _ IH]; intros w' Hle; inversion Hle; subst.
  - constructor.
  - constructor; [lia | apply IH; assumption].
Qed.

Lemma Forall2_le_refl (w : list nat) : Forall2 le w w.
Proof. induction w; constructor; auto. Qed.

Lemma Forall2_le_trans (a b c : list nat) :
  Forall2 le a b -> Forall2 le b c -> Forall2 le a c.
Proof.
  intros H. revert c. induction H; intros c' H'; inversion H'; subst;
    constructor; [lia | auto].
Qed.

Lemma widths_fold (rows : list (list str)) (w0 : list nat) :
  (forall row, In row rows -> List.length row = List.length w0) ->
  exists w,
    fold_left
      (fun acc row =>
         match acc with
         | None => None
         | Some w => widen_row w row
         end) rows (Some w0) = Some w
    /\ List.length w = List.length w0
    /\ Forall2 le w0 w
    /\ forall row, In row rows -> fits w row.
Proof.
  revert w0; induction rows as [|row rows IH]; intros w0 Hlen; simpl.
  - exists w0. repeat split; [apply Forall2_le_refl | intros ? []].
  - assert (H0 : List.length w0 = List.length row)
      by (symmetry; apply Hlen; left; reflexivity).
    rewrite (widen_row_grow w0 row H0).
    destruct (grow_spec w0 row H0) as [Hfit Hge].
    destruct (IH (grow w0 row)) as (w & Hw & Hl & Hle & Hrows).
    { intros r Hr. rewrite grow_length by exact H0. apply Hlen. right.
      exact Hr. }
    exists w. split; [exact Hw|]. split.
    { rewrite Hl. apply grow_length. exact H0. }
    split; [eapply Forall2_le_trans; eassumption|].
    intros r [<- | Hr]; [eapply fits_mono; eassumption | auto].
Qed.

Lemma format_cells_from (cells : list str) (pre post : list nat) :
  List.length post = List.length cells ->
  map_all
    (fun iv =>
       match nth_error (pre ++ post) (fst iv) with
       | None => None
       | Some w => Some (ljust (snd iv) w)
       end)
    (combine (seq (List.length pre) (List.length cells)) cells)
  = Some (padded post cells).
Proof.
  revert pre post; induction cells as [|c cells IH]; intros pre post Hlen.
  - reflexivity.
  - destruct post as [|p post]; [discriminate|]. simpl in Hlen.
    cbn [List.length seq combine map_all fst snd].
    rewrite nth_error_middle.
    replace (pre ++ p :: post) with ((pre ++ [p]) ++ post)
      by (rewrite <- app_assoc; reflexivity).
    replace (S (List.length pre)) with (List.length (pre ++ [p]))
      by (rewrite length_app; simpl; lia).
    rewrite IH by lia. reflexivity.
Qed.

Lemma format_row_padded (w : list nat) (row : list str) :
  List.length w = List.length row ->
  format_row w row = Some (join lit_column_sep (padded w row)).
Proof.
  intros H. unfold format_row, enumerate.
  pose proof (format_cells_from row [] w H) as E. simpl in E.
  rewrite E. reflexivity.
Qed.

Lemma join_length (sep : str) (parts : list str) :
  List.length (join sep parts)
  = list_sum (map (@List.length N) parts)
    + List.length sep * (List.length parts - 1).
Proof.
  induction parts as [|p rest IH]; [simpl; lia|].
  destruct rest as [|q rest].
  - simpl. lia.
  - change (join sep (p :: q :: rest)) with (p ++ sep ++ join sep (q :: rest)).
    rewrite !length_app, IH. simpl. lia.
Qed.

Lemma ljust_length (s : str) (width : nat) :
  List.length s <= width -> List.length (ljust s width) = width.
Proof.
  intros H. unfold ljust. rewrite length_app, repeat_length. lia.
Qed.

Lemma padded_lengths (w : list nat) (row : list str) :
  fits w row ->
  map (@List.length N) (padded w row) = w
  /\ List.length (padded w row) = List.length w.
Proof.
  unfold fits, padded. induction 1 as [|x c w row Hx _ [IH1 IH2]]; simpl.
  - split; reflexivity.
  - rewrite IH1, IH2, (ljust_length c x Hx). split; reflexivity.
Qed.

Lemma rule_lengths (w : list nat) :
  map (@List.length N) (map (fun width => repeat 45%N width) w) = w.
Proof.
  induction w as [|x w IH]; simpl; [reflexivity|].
  rewrite repeat_length, IH. reflexivity.
Qed.

Lemma map_all_total {A B : Type} (f : A -> option B) (g : A -> B)
      (l : list A) :
  (forall a, In a l -> f a = Some (g a)) -> map_all f l = Some (map g l).
Proof.
  induction l as [|a t IH]; simpl; intros H; [reflexivity|].
  rewrite (H a (or_introl eq_refl)), IH; [reflexivity|].
  intros b Hb. apply H. right. exact Hb.
Qed.

Lemma to_table_lines_spec (employees : list EmployeeRecord) :
  exists col_widths lines,
    to_table_lines employees = Some lines
    /\ List.length lines = 2 + List.length employees
    /\ List.length col_widths = 7
    /\ Forall (fun line =>
                 List.length line = list_sum col_widths + 18) lines
    /\ Forall2 (fun e line =>
                  fits col_widths (table_row e)
                  /\ line = join lit_column_sep
                                 (padded col_widths (table_row e)))
               employees (skipn 2 lines).
Proof.
  destruct (widths_fold (map table_row employees)
                        (map (@List.length N) table_headers))
    as (w & Hw & Hl & Hle & Hrows).
  { intros row Hr. apply in_map_iff in Hr as [e [<- _]]. reflexivity. }
  assert (H7 : List.length w = 7) by (rewrite Hl; reflexivity).
  assert (Hh : fits w table_headers).
  { unfold fits. clear - Hle.
    remember (map (@List.length N) table_headers) as hw eqn:E.
    revert E. generalize table_headers as hs.
    induction Hle as [|x y l l' Hxy _ IH]; intros hs E;
      destruct hs as [|h hs]; try discriminate; constructor.
    - injection E as -> _. exact Hxy.
    - apply IH. injection E as _ E. exact E. }
  assert (Hbody : map_all (format_row w) (map table_row employees)
                  = Some (map (fun row => join lit_column_sep (padded w row))
                              (map table_row employees))).
  { apply map_all_total. intros row Hr. apply format_row_padded.
    apply in_map_iff in Hr as [e [<- _]]. rewrite H7. reflexivity. }
  assert (Hline : forall row, fits w row ->
            List.length (join lit_column_sep (padded w row))
            = list_sum w + 18).
  { intros row Hf. rewrite join_length.
    destruct (padded_lengths w row Hf) as [-> ->]. rewrite H7. reflexivity. }
  exists w. eexists. unfold to_table_lines, table_widths.
  rewrite Hw, (format_row_padded w table_headers) by (rewrite H7; reflexivity).
  rewrite Hbody.
  split; [reflexivity|].
  split; [simpl; rewrite !length_map; reflexivity|].
  split; [exact H7|]. split.
  - constructor; [apply Hline; exact Hh|]. constructor.
    + rewrite join_length, rule_lengths, length_map, H7. reflexivity.
    + apply Forall_forall. intros line Hin.
      rewrite map_map in Hin. apply in_map_iff in Hin as [e [<- He]].
      apply Hline. apply Hrows. apply in_map. exact He.
  - simpl skipn. rewrite map_map.
    clear - Hrows. induction employees as [|e t IH]; simpl; constructor.
    + split; [|reflexivity]. apply Hrows. left. reflexivity.
    + apply IH. intros row Hr. apply Hrows. right. exact Hr.
Qed.



End TableFacts.

Example to_table_example :
  option_map (map (@List.length N))
             (to_table_lines (_employees roster_example))
  = Some [39; 39; 39; 39; 39; 39]%nat
  /\ to_table_lines [] = Some [u8 "사번 | 이름 | 팀 | 직책 | 고용형태 | 근속기간 | 총경력";
                               u8 "---+----+---+----+------+------+----"].
Proof. split; reflexivity. Qed.


(* ================================================================= *)
(** * The front end *)

Lemma bind_done {A B : Type} (m : io A) (k : A -> io B) (stdin : list str)
      (w : list out) (a : A) (rest : list str) :
  m stdin = (w, Done a rest) ->
  io_bind m k stdin = (w ++ fst (k a rest), snd (k a rest)).
Proof.
  intros H. unfold io_bind. rewrite H. destruct (k a rest). reflexivity.
Qed.

Lemma bind_fail {A B : Type} (m : io A) (k : A -> io B) (stdin : list str)
      (w : list out) (e : cli_exn) :
  m stdin = (w, Fail e) -> io_bind m k stdin = (w, Fail e).
Proof. intros H. unfold io_bind. rewrite H. reflexivity. Qed.

Lemma bind_print {B : Type} (s : str) (k : unit -> io B) (stdin : list str) :
  io_bind (print s) k stdin
  = (Line s :: fst (k tt stdin), snd (k tt stdin)).
Proof. apply (bind_done (print s) k stdin [Line s] tt stdin). reflexivity. Qed.

Lemma bind_input {B : Type} (p : str) (k : str -> io B) (line : str)
      (rest : list str) :
  io_bind (input p) k (line :: rest)
  = (Prompt p :: fst (k line rest), snd (k line rest)).
Proof.
  apply (bind_done (input p) k (line :: rest) [Prompt p] line rest).
  reflexivity.
Qed.

Lemma print_all_run (lines : list str) (stdin : list str) :
  print_all lines stdin = (map Line lines, Done tt stdin).
Proof.
  induction lines as [|s t IH]; simpl; [reflexivity|].
  rewrite bind_print, IH. reflexivity.
Qed.

Lemma bind_print_all {B : Type} (lines : list str) (k : unit -> io B)
      (stdin : list str) :
  io_bind (print_all lines) k stdin
  = (map Line lines ++ fst (k tt stdin), snd (k tt stdin)).
Proof. apply bind_done. apply print_all_run. Qed.

Lemma reads_ret {A : Type} (a : A) : reads 0 (io_ret a).
Proof. intros stdin. simpl. lia. Qed.

Lemma reads_print (s : str) : reads 0 (print s).
Proof. intros stdin. simpl. lia. Qed.

Lemma reads_raise {A : Type} (e : cli_exn) : reads 0 (@io_raise A e).
Proof. intros stdin. exact I. Qed.

Lemma reads_input (p : str) : reads 1 (input p).
Proof. intros [|l r]; simpl; [exact I | lia]. Qed.

Lemma reads_weaken {A : Type} (n k : nat) (m : io A) :
  reads n m -> (k <= n)%nat -> reads k m.
Proof.
  intros H Hk stdin. specialize (H stdin).
  destruct (snd (m stdin)); [lia | exact I].
Qed.

Lemma reads_bind {A B : Type} (n k : nat) (m : io A) (f : A -> io B) :
  reads n m -> (forall a, reads k (f a)) -> reads (n + k) (io_bind m f).
Proof.
  intros Hm Hf stdin. specialize (Hm stdin). unfold io_bind.
  destruct (m stdin) as [w [a rest|e]]; simpl in *; [|exact I].
  specialize (Hf a rest). destruct (f a rest) as [w' [b rest'|e']];
    simpl in *; [lia | exact I].
Qed.

Lemma reads_bind0 {A B : Type} (m : io A) (f : A -> io B) :
  reads 0 m -> (forall a, reads 0 (f a)) -> reads 0 (io_bind m f).
Proof. apply (reads_bind 0 0). Qed.

Lemma reads_input0 (p : str) : reads 0 (input p).
Proof. apply (reads_weaken 1); [apply reads_input | lia]. Qed.

Lemma reads_of_result {A : Type} (r : result A) : reads 0 (of_result r).
Proof. destruct r; [apply reads_ret | apply reads_raise]. Qed.

Lemma reads_of_table (t : option str) : reads 0 (of_table t).
Proof. destruct t; [apply reads_ret | apply reads_raise]. Qed.

Lemma reads_print_all (lines : list str) : reads 0 (print_all lines).
Proof.
  induction lines; simpl; [apply reads_ret|].
  apply reads_bind0; [apply reads_print | intros _; assumption].
Qed.

Create HintDb io_reads.
#[local] Hint Resolve reads_ret reads_print reads_raise reads_input0
  reads_of_result reads_of_table reads_print_all : io_reads.

Ltac reads0 :=
  repeat first
    [ apply reads_bind0; [|intro]
    | solve [auto with io_reads]
    | match goal with
      | |- reads 0 (match ?x with _ => _ end) => destruct x
      | |- reads 0 (if ?b then _ else _) => destruct b
      end ].

Lemma reads_cmd_summary (roster : EmployeeRoster) :
  reads 0 (cmd_summary roster).
Proof. unfold cmd_summary. reads0. Qed.

Lemma reads_cmd_list (roster : EmployeeRoster) (active_only : bool) :
  reads 0 (cmd_list roster active_only).
Proof.
  unfold cmd_list.
  destruct (if active_only then active roster else _employees roster);
    reads0.
Qed.

(** X19. [cmd_summary] prints nothing when the average cannot be
    computed; otherwise its report is consistent: the counts of the team
    section add up to the number of the active line, those of the status
    section to the number of the total line, and the former is at most
    the latter. *)
Theorem cmd_summary_output (roster : EmployeeRoster) (stdin : list str) :
  (forall e, average_tenure_months roster true = Raise e ->
             cmd_summary roster stdin = ([], Fail (Raised e)))
  /\ (forall avg_tenure,
      average_tenure_months roster true = Ok avg_tenure ->
      let active_count := Z.of_nat (List.length (active roster)) in
      let total_count := len roster in
      cmd_summary roster stdin
      = ([Line (u8 "================");
          Line (u8 "인사 현황 요약");
          Line (u8 "================");
          Line (u8 "전체 인원: " ++ str_of_Z total_count ++ u8 "명");
          Line (u8 "재직 인원: " ++ str_of_Z active_count ++ u8 "명");
          Line (u8 "평균 근속기간(재직자): " ++ _describe_months avg_tenure);
          Line [];
          Line (u8 "[팀별 재직 인원]")]
           ++ map Line (map count_line (summary_by_team roster))
           ++ [Line []; Line (u8 "[재직구분별 인원]")]
           ++ map Line (map count_line (summary_by_status roster)),
         Done tt stdin)
      /\ sum_Z (values (summary_by_team roster)) = active_count
      /\ sum_Z (values (summary_by_status roster)) = total_count
      /\ active_count <= total_count).
Proof.
  split.
  - intros e H. unfold cmd_summary. rewrite H. reflexivity.
  - intros avg H. cbv zeta. split; [|split; [|split]].
    + unfold cmd_summary. rewrite H. cbn [of_result].
      unfold io_bind at 1, io_ret at 1.
      rewrite !bind_print. cbn [fst snd].
      rewrite bind_print_all. cbn [fst snd].
      rewrite !bind_print. cbn [fst snd].
      rewrite print_all_run. reflexivity.
    + destruct (summary_facts team_key (active roster)) as [Hs _].
      exact Hs.
    + destruct (summary_facts status_key (_employees roster)) as [Hs _].
      exact Hs.
    + unfold len, active. apply inj_le. apply filter_length_le.
Qed.

Section CliFacts.

Variable lower : str -> str.
Variable int_of_str : str -> option Z.
Variable fromisoformat : str -> option date.
Variable strftime_ymd : date -> str.
Variable today : date.

Lemma reads_cmd_search (roster : EmployeeRoster) (keyword : str) :
  reads 0 (cmd_search lower roster keyword).
Proof. unfold cmd_search. destruct (search lower roster keyword); reads0. Qed.

Lemma reads_cmd_probation (roster : EmployeeRoster) (within_days : Z)
      (reference_date : option date) :
  reads 0 (cmd_probation strftime_ymd today roster within_days reference_date).
Proof. unfold cmd_probation. reads0. Qed.

Lemma reads_pause : reads 0 _pause.
Proof. unfold _pause. reads0. Qed.

Lemma reads_menu_choice (roster : EmployeeRoster) (choice : str) :
  reads 0 (menu_choice lower int_of_str fromisoformat strftime_ymd today
                       roster choice).
Proof.
  pose proof reads_pause. pose proof reads_cmd_summary.
  pose proof reads_cmd_list. pose proof reads_cmd_search.
  pose proof reads_cmd_probation.
  unfold menu_choice, menu_probation.
  repeat match goal with
         | |- reads 0 (if ?b then _ else _) => destruct b
         end;
    repeat first
      [ apply reads_bind0; [|intro]
      | solve [auto with io_reads]
      | match goal with
        | |- reads 0 (match ?x with _ => _ end) => destruct x
        end ].
Qed.

Lemma reads_menu_pass (roster : EmployeeRoster) :
  reads 1 (menu_pass lower int_of_str fromisoformat strftime_ymd today roster).
Proof.
  unfold menu_pass.
  apply (reads_bind 0 1); [apply reads_print_all | intros _].
  apply (reads_bind 1 0); [apply reads_input | intros choice].
  apply reads_bind0; [apply reads_print | intros _].
  apply reads_bind0; [apply reads_menu_choice | intros control].
  destruct control; reads0.
Qed.

Lemma menu_fuel_irrelevant (roster : EmployeeRoster) (fuel fuel' : nat)
      (stdin : list str) :
  (List.length stdin < fuel)%nat -> (List.length stdin < fuel')%nat ->
  run_interactive_menu lower int_of_str fromisoformat strftime_ymd today
                       fuel roster stdin
  = run_interactive_menu lower int_of_str fromisoformat strftime_ymd today
                         fuel' roster stdin.
Proof.
  revert fuel' stdin; induction fuel as [|fuel IH]; intros fuel' stdin H1 H2;
    [lia|].
  destruct fuel' as [|fuel']; [lia|].
  cbn [run_interactive_menu]. unfold io_bind.
  pose proof (reads_menu_pass roster stdin) as Hp.
  destruct (menu_pass _ _ _ _ _ roster stdin) as [w [control rest|e]];
    simpl in Hp; [|reflexivity].
  destruct control; [reflexivity| |];
    rewrite (IH fuel' rest) by lia; reflexivity.
Qed.

Lemma menu_returns (roster : EmployeeRoster) (fuel : nat)
      (stdin : list str) :
  (List.length stdin < fuel)%nat ->
  match snd (run_interactive_menu lower int_of_str fromisoformat
                                  strftime_ymd today fuel roster stdin) with
  | Done returned rest =>
      returned = true /\ (List.length rest < List.length stdin)%nat
  | Fail _ => True
  end.
Proof.
  revert stdin; induction fuel as [|fuel IH]; intros stdin Hf; [lia|].
  cbn [run_interactive_menu]. unfold io_bind at 1.
  pose proof (reads_menu_pass roster stdin) as Hp.
  destruct (menu_pass _ _ _ _ _ roster stdin) as [w [control rest|e]];
    simpl in Hp; [|exact I].
  assert (Hrest : (List.length rest < fuel)%nat) by lia.
  destruct control.
  - simpl. split; [reflexivity | lia].
  - specialize (IH rest Hrest).
    destruct (run_interactive_menu _ _ _ _ _ fuel roster rest)
      as [w' [b r|e]]; simpl in *; [|exact I].
    destruct IH. split; [assumption | lia].
  - specialize (IH rest Hrest).
    destruct (run_interactive_menu _ _ _ _ _ fuel roster rest)
      as [w' [b r|e]]; simpl in *; [|exact I].
    destruct IH. split; [assumption | lia].
Qed.



(** X16. The menu loop cannot go on without reading: with more passes
    allowed than there are input lines it never runs out of passes, it
    either returns (having read at least one line) or ends with an
    exception; and the passes allowed beyond that change nothing. *)
Theorem menu_ends (roster : EmployeeRoster) (fuel : nat)
        (stdin : list str) :
  (List.length stdin < fuel)%nat ->
  match snd (run_interactive_menu lower int_of_str fromisoformat
                                  strftime_ymd today fuel roster stdin) with
  | Done returned rest =>
      returned = true /\ (List.length rest < List.length stdin)%nat
  | Fail _ => True
  end
  /\ (forall fuel',
        (List.length stdin < fuel')%nat ->
        run_interactive_menu lower int_of_str fromisoformat strftime_ymd
                             today fuel' roster stdin
        = run_interactive_menu lower int_of_str fromisoformat strftime_ymd
                               today fuel roster stdin).
Proof.
  intros H. split; [apply menu_returns; exact H|].
  intros fuel' H'. apply menu_fuel_irrelevant; assumption.
Qed.

Lemma cmd_list_run (roster : EmployeeRoster) (active_only : bool)
      (stdin : list str) :
  cmd_list roster active_only stdin
  = ([Line (match (if active_only then active roster
                   else _employees roster) with
            | [] => u8 "표시할 인원이 없습니다."
            | _ :: _ => table_text (if active_only then active roster
                                    else _employees roster)
            end)],
     Done tt stdin).
Proof.
  unfold cmd_list, table_text, to_table.
  destruct (if active_only then active roster else _employees roster)
    as [|e t]; [reflexivity|].
  destruct (to_table_lines_spec (e :: t)) as (w & lines & -> & _).
  reflexivity.
Qed.

Lemma cmd_search_run (roster : EmployeeRoster) (keyword : str)
      (stdin : list str) :
  cmd_search lower roster keyword stdin
  = (match search lower roster keyword with
     | [] => [Line (u8 "'" ++ keyword
                       ++ u8 "'에 해당하는 인원을 찾을 수 없습니다.")]
     | _ :: _ =>
         [Line (u8 "총 "
                   ++ str_of_Z (Z.of_nat
                                  (List.length (search lower roster keyword)))
                   ++ u8 "명 발견");
          Line (table_text (search lower roster keyword))]
     end,
     Done tt stdin).
Proof.
  unfold cmd_search, table_text, to_table.
  destruct (search lower roster keyword) as [|e t]; [reflexivity|].
  destruct (to_table_lines_spec (e :: t)) as (w & lines & -> & _).
  reflexivity.
Qed.

Lemma table_text_lines (employees : list EmployeeRecord) :
  exists lines,
    to_table_lines employees = Some lines
    /\ table_text employees = join lit_newline lines
    /\ List.length lines = (2 + List.length employees)%nat.
Proof.
  destruct (to_table_lines_spec employees) as (w & lines & H & Hn & _).
  exists lines. unfold table_text. rewrite H. auto.
Qed.

(** X14. [cmd_list] and [cmd_search] never fail and read no input: each
    prints one message when there is nobody to show, the table otherwise
    (after the line with the number found, for a search); a blank keyword
    gets the message with the keyword as it was typed; the table printed
    for n people has n + 2 lines. *)
Theorem cmd_list_search_output (roster : EmployeeRoster) (stdin : list str) :
  (forall active_only : bool,
      let employees :=
        if active_only then active roster else _employees roster in
      cmd_list roster active_only stdin
      = ([Line (match employees with
                | [] => u8 "표시할 인원이 없습니다."
                | _ :: _ => table_text employees
                end)],
         Done tt stdin))
  /\ (forall keyword : str,
      let results := search lower roster keyword in
      cmd_search lower roster keyword stdin
      = (match results with
         | [] => [Line (u8 "'" ++ keyword
                           ++ u8 "'에 해당하는 인원을 찾을 수 없습니다.")]
         | _ :: _ =>
             [Line (u8 "총 " ++ str_of_Z (Z.of_nat (List.length results))
                       ++ u8 "명 발견");
              Line (table_text results)]
         end,
         Done tt stdin))
  /\ (forall keyword : str,
      forallb py_isspace keyword = true ->
      cmd_search lower roster keyword stdin
      = ([Line (u8 "'" ++ keyword
                   ++ u8 "'에 해당하는 인원을 찾을 수 없습니다.")],
         Done tt stdin))
  /\ (forall employees,
      exists lines,
        to_table_lines employees = Some lines
        /\ table_text employees = join lit_newline lines
        /\ List.length lines = (2 + List.length employees)%nat).
Proof.
  split; [|split; [|split]].
  - intros active_only. apply cmd_list_run.
  - intros keyword. apply cmd_search_run.
  - intros keyword Hb. rewrite cmd_search_run.
    unfold search. apply strip_nil in Hb. rewrite Hb. reflexivity.
  - apply table_text_lines.
Qed.




(** One pass of the loop, in terms of the branch taken. *)
Lemma menu_pass_run (roster : EmployeeRoster) (line : str)
      (rest : list str) :
  menu_pass lower int_of_str fromisoformat strftime_ymd today roster
            (line :: rest)
  = let r := menu_choice lower int_of_str fromisoformat strftime_ymd today
                         roster (lower (strip line)) rest in
    (map Line menu_banner
         ++ Prompt lit_choice_prompt :: Line []
         :: fst r ++ match snd r with
                     | Done EndOfBody _ => [Line []]
                     | _ => []
                     end,
     snd r).
Proof.
  unfold menu_pass. rewrite bind_print_all. cbn [fst snd].
  rewrite bind_input. cbn [fst snd]. rewrite bind_print. cbn [fst snd].
  unfold io_bind.
  destruct (menu_choice _ _ _ _ _ roster (lower (strip line)) rest)
    as [w [c r|e]]; cbn [fst snd]; [|rewrite app_nil_r; reflexivity].
  destruct c; cbn; rewrite ?app_nil_r; reflexivity.
Qed.

(** X17. A first line that strips and lowers to q, quit or exit ends the
    menu at once: the banner, the prompt, a blank line and the farewell
    are written, the menu returns, and the lines after it stay unread. *)
Theorem menu_quit (roster : EmployeeRoster) (fuel : nat) (line : str)
        (rest : list str) :
  In (lower (strip line)) quit_words ->
  run_interactive_menu lower int_of_str fromisoformat strftime_ymd today
                       (S fuel) roster (line :: rest)
  = (map Line menu_banner
         ++ [Prompt lit_choice_prompt; Line []; Line lit_goodbye],
     Done true rest).
Proof.
  intros Hq.
  assert (Hc : menu_choice lower int_of_str fromisoformat strftime_ymd today
                           roster (lower (strip line)) rest
               = ([Line lit_goodbye], Done Return rest)).
  { unfold menu_choice.
    replace (existsb (str_eqb (lower (strip line))) quit_words) with true.
    - reflexivity.
    - symmetry. apply existsb_exists. exists (lower (strip line)).
      split; [exact Hq | apply str_eqb_refl]. }
  cbn [run_interactive_menu]. unfold io_bind at 1.
  rewrite menu_pass_run, Hc. cbn [fst snd io_ret].
  rewrite !app_nil_r. reflexivity.
Qed.

Lemma menu_probation_raise (roster : EmployeeRoster)
      (days reference : str) (rest : list str) (n : Z) (ref : option date)
      (e : exn) :
  read_within int_of_str (strip days) = Some n ->
  read_reference fromisoformat (strip reference) = Some ref ->
  upcoming_probation_end today roster n ref = Raise e ->
  snd (menu_probation int_of_str fromisoformat strftime_ymd today roster
                      (days :: reference :: rest))
  = Fail (Raised e).
Proof.
  intros H1 H2 H3. unfold menu_probation.
  rewrite bind_input. cbn [snd]. rewrite H1.
  rewrite bind_input. cbn [snd]. rewrite H2.
  rewrite bind_print. cbn [snd].
  unfold io_bind at 1. unfold cmd_probation. rewrite H3. reflexivity.
Qed.

(** X18. The menu catches the [ValueError] of a number or date it cannot
    read, not the errors of the query: when choice 5 is given days and a
    reference date for which [upcoming_probation_end] raises, the session
    ends with that exception. *)
Theorem menu_probation_error (roster : EmployeeRoster) (fuel : nat)
        (choice days reference : str) (rest : list str) (n : Z)
        (ref : option date) (e : exn) :
  lower (strip choice) = u8 "5" ->
  read_within int_of_str (strip days) = Some n ->
  read_reference fromisoformat (strip reference) = Some ref ->
  upcoming_probation_end today roster n ref = Raise e ->
  snd (run_interactive_menu lower int_of_str fromisoformat strftime_ymd
                            today (S fuel) roster
                            (choice :: days :: reference :: rest))
  = Fail (Raised e).
Proof.
  intros Hc H1 H2 H3.
  pose proof (menu_probation_raise roster days reference rest n ref e
                                   H1 H2 H3) as Hp.
  cbn [run_interactive_menu]. unfold io_bind at 1.
  rewrite menu_pass_run. rewrite Hc.
  change (menu_choice lower int_of_str fromisoformat strftime_ymd today
                      roster (u8 "5"))
    with (menu_probation int_of_str fromisoformat strftime_ymd today roster).
  cbv zeta.
  destruct (menu_probation _ _ _ _ roster (days :: reference :: rest))
    as [w s]. simpl in Hp. subst s. reflexivity.
Qed.

End CliFacts.

Lemma menu_ends_example :
  (3 < 10)%nat
  /\ match snd (run_interactive_menu
                  lower_ascii int_example fromisoformat_example
                  strftime_example (ymd 2016 8 1) 10 roster_example
                  [u8 "2"; []; u8 "Quit"]) with
     | Done returned rest =>
         returned = true /\ (List.length rest < 3)%nat
     | Fail _ => True
     end
  /\ (forall fuel',
        (3 < fuel')%nat ->
        run_interactive_menu lower_ascii int_example fromisoformat_example
                             strftime_example (ymd 2016 8 1) fuel'
                             roster_example [u8 "2"; []; u8 "Quit"]
        = run_interactive_menu lower_ascii int_example fromisoformat_example
                               strftime_example (ymd 2016 8 1) 10
                               roster_example [u8 "2"; []; u8 "Quit"]).
Proof.
  split; [lia|].
  apply (menu_ends lower_ascii int_example fromisoformat_example
                   strftime_example (ymd 2016 8 1) roster_example 10
                   [u8 "2"; []; u8 "Quit"]).
  simpl. lia.
Defined.

Lemma menu_quit_example :
  run_interactive_menu lower_ascii int_example fromisoformat_example
                       strftime_example (ymd 2016 8 1) 1 roster_example
                       [u8 " Q "; u8 "1"]
  = (map Line menu_banner
         ++ [Prompt lit_choice_prompt; Line []; Line lit_goodbye],
     Done true [u8 "1"]).
Proof.
  apply (menu_quit lower_ascii int_example fromisoformat_example
                   strftime_example (ymd 2016 8 1) roster_example 0
                   (u8 " Q ") [u8 "1"]).
  left. reflexivity.
Defined.

Lemma menu_probation_error_example :
  snd (run_interactive_menu lower_ascii int_example fromisoformat_example
                            strftime_example (ymd 2016 8 1) 1 roster_example
                            [u8 "5"; []; u8 "9999-12-31"; u8 "q"])
  = Fail (Raised OverflowError).
Proof.
  apply (menu_probation_error
           lower_ascii int_example fromisoformat_example strftime_example
           (ymd 2016 8 1) roster_example 0 (u8 "5") [] (u8 "9999-12-31")
           [u8 "q"] 30 (Some date_max) OverflowError);
    reflexivity.
Defined.

Example menu_session_example :
  snd (run_interactive_menu lower_ascii int_example fromisoformat_example
                            strftime_example (ymd 2016 8 1) 10 roster_example
                            (map u8 ["5"; "abc"; ""; "4"; "  "; ""; "x"; "";
                                     "EXIT"; "1"]%string))
  = Done true [u8 "1"]
  /\ snd (run_interactive_menu lower_ascii int_example fromisoformat_example
                               strftime_example (ymd 2016 8 1) 10
                               roster_example [u8 "1"])
     = Fail EOFError.
Proof. split; vm_compute; reflexivity. Qed.
